(** * SSD1309 SPI OLED driver (MicroPython): protocol-level verification

    Shallow embedding of [ssd1309.py].  The driver object, the three control
    pins and the SPI bus live in one explicit store; every method of
    [SSD1309_SPI] is a computation in a small state-and-exception monad over
    that store.  Every call made to the hardware layer ([Pin.init],
    [Pin.value], [time.sleep_ms], [SPI.write]) is appended to a trace, which
    is what the theorems speak about. *)

From Stdlib Require Import ZArith List Bool Lia.
From Stdlib Require String.
Import ListNotations.
Open Scope Z_scope.

(** ** Command definitions (the [const(...)] table of the module) *)

Module Cmd.
Definition _DISPLAY_OFF : Z := 0xAE.
Definition _DISPLAY_ON : Z := 0xAF.
Definition _SET_DISPLAY_ALL_ON_RESUME : Z := 0xA4.
Definition _SET_DISPLAY_ALL_ON : Z := 0xA5.
Definition _SET_NORMAL_DISPLAY : Z := 0xA6.
Definition _SET_INVERTED_DISPLAY : Z := 0xA7.
Definition _DEACTIVATE_SCROLL : Z := 0x2E.
Definition _SET_LOWER_COLUMN : Z := 0x00.
Definition _SET_HIGHER_COLUMN : Z := 0x10.
Definition _SET_MEMORY_MODE : Z := 0x20.
Definition _SET_COLUMN_ADDR : Z := 0x21.
Definition _SET_PAGE_ADDR : Z := 0x22.
Definition _SET_START_LINE : Z := 0x40.
Definition _SET_SEG_REMAP : Z := 0xA0.
Definition _SET_SEG_REMAP_INV : Z := 0xA1.
Definition _SET_MULTIPLEX_RATIO : Z := 0xA8.
Definition _SET_COM_SCAN_INC : Z := 0xC0.
Definition _SET_COM_SCAN_DEC : Z := 0xC8.
Definition _SET_DISPLAY_OFFSET : Z := 0xD3.
Definition _SET_COM_PINS : Z := 0xDA.
Definition _SET_CLOCK_DIV : Z := 0xD5.
Definition _SET_PRECHARGE : Z := 0xD9.
Definition _SET_VCOMH_DESELECT : Z := 0xDB.
Definition _SET_CONTRAST : Z := 0x81.
Definition _SET_COMMAND_LOCK : Z := 0xFD.
Definition _ADDR_MODE_HORIZONTAL : Z := 0x00.
Definition _ADDR_MODE_VERTICAL : Z := 0x01.
Definition _ADDR_MODE_PAGE : Z := 0x02.
Definition _DEFAULT_CONTRAST : Z := 0xCF.
Definition _DEFAULT_PRECHARGE : Z := 0xF1.
Definition _DEFAULT_VCOMH : Z := 0x30.
Definition _DEFAULT_CLOCK_DIV : Z := 0x80.
Definition _DEFAULT_COM_PINS : Z := 0x12.
End Cmd.
Import Cmd.

(** ** The store *)

(** The three control lines handed to the constructor. *)
Inductive pin : Type := CS | DC | RST.

(** One entry per call into the hardware layer, oldest first.  A call of
    [SPI.write] that raises is logged as [SpiError]: its bytes did not go
    out. *)
Inductive event : Type :=
| PinInit (p : pin) (v : Z)
| PinSet (p : pin) (v : Z)
| SleepMs (ms : Z)
| SpiWrite (buf : list Z)
| SpiError (buf : list Z).

(** Attributes of the driver object.  [buffer] is the one [bytearray] that
    the object and its [FrameBuffer] base share. *)
Record SSD1309_SPI : Type := mkSSD1309 {
  width : Z;
  height : Z;
  pages : Z;
  buffer : list Z
}.

(** [spi_faults n = true] means that the [n]-th call of [SPI.write] since
    power-up raises; [spi_calls] counts the calls made so far. *)
Record state : Type := mkState {
  self : SSD1309_SPI;
  cs : Z;
  dc : Z;
  rst : Z;
  trace : list event;
  spi_faults : nat -> bool;
  spi_calls : nat
}.

Definition set_self (o : SSD1309_SPI) (s : state) : state :=
  mkState o (cs s) (dc s) (rst s) (trace s) (spi_faults s) (spi_calls s).

Definition set_pin (p : pin) (v : Z) (s : state) : state :=
  match p with
  | CS => mkState (self s) v (dc s) (rst s) (trace s) (spi_faults s) (spi_calls s)
  | DC => mkState (self s) (cs s) v (rst s) (trace s) (spi_faults s) (spi_calls s)
  | RST => mkState (self s) (cs s) (dc s) v (trace s) (spi_faults s) (spi_calls s)
  end.

Definition log (e : event) (s : state) : state :=
  mkState (self s) (cs s) (dc s) (rst s) (trace s ++ [e]) (spi_faults s)
          (spi_calls s).

Definition count_call (s : state) : state :=
  mkState (self s) (cs s) (dc s) (rst s) (trace s) (spi_faults s)
          (S (spi_calls s)).

(** ** Exceptions and the monad *)

Inductive exn : Type :=
| ValueError
| OSError.   (* what a failing SPI transfer raises *)

Inductive result (A : Type) : Type :=
| Ok (a : A)
| Raise (e : exn).
Arguments Ok {A} a.
Arguments Raise {A} e.

Definition M (A : Type) : Type := state -> result A * state.

Definition ret {A} (a : A) : M A := fun s => (Ok a, s).

Definition raise {A} (e : exn) : M A := fun s => (Raise e, s).

Definition bind {A B} (m : M A) (k : A -> M B) : M B :=
  fun s =>
    match m s with
    | (Ok a, s') => k a s'
    | (Raise e, s') => (Raise e, s')
    end.

Definition gets {A} (f : state -> A) : M A := fun s => (Ok (f s), s).

Definition modify (f : state -> state) : M unit := fun s => (Ok tt, f s).

Notation "x <- m ;; k" := (bind m (fun x => k))
  (at level 61, m at next level, right associativity).
Notation "m ;; k" := (bind m (fun _ => k))
  (at level 61, right associativity).

(** ** Hardware layer *)

(** [pin.init(pin.OUT, value=v)] *)
Definition pin_init (p : pin) (v : Z) : M unit :=
  modify (fun s => log (PinInit p v) (set_pin p v s)).

(** [pin.value(v)] *)
Definition pin_value (p : pin) (v : Z) : M unit :=
  modify (fun s => log (PinSet p v) (set_pin p v s)).

(** [time.sleep_ms(ms)] *)
Definition sleep_ms (ms : Z) : M unit :=
  modify (log (SleepMs ms)).

(** [spi.write(buf)]: the transport either takes the whole run of bytes or
    raises. *)
Definition spi_write (buf : list Z) : M unit :=
  fun s =>
    if spi_faults s (spi_calls s)
    then (Raise OSError, log (SpiError buf) (count_call s))
    else (Ok tt, log (SpiWrite buf) (count_call s)).

(** [bytes([...])]: every item has to be in [range(256)]. *)
Definition bytes (l : list Z) : M (list Z) :=
  if forallb (fun b => (0 <=? b) && (b <=? 255)) l
  then ret l else raise ValueError.

(** [bytearray(n)]: [n] zero bytes; a negative count is refused. *)
Definition bytearray (n : Z) : M (list Z) :=
  if n <? 0 then raise ValueError else ret (repeat 0 (Z.to_nat n)).

(** ** Methods of [SSD1309_SPI] *)

Definition reset : M unit :=
  pin_value RST 1 ;;
  sleep_ms 1 ;;
  pin_value RST 0 ;;
  sleep_ms 10 ;;
  pin_value RST 1 ;;
  sleep_ms 10.

Definition write_cmd (cmd : Z) : M unit :=
  pin_value CS 0 ;;
  pin_value DC 0 ;;
  b <- bytes [cmd] ;;
  spi_write b ;;
  pin_value CS 1.

Definition write_data (buf : list Z) : M unit :=
  pin_value CS 0 ;;
  pin_value DC 1 ;;
  spi_write buf ;;
  pin_value CS 1.

Definition init_display : M unit :=
  write_cmd _SET_COMMAND_LOCK ;;
  write_cmd 0x12 ;;
  write_cmd _DISPLAY_OFF ;;
  write_cmd _SET_CLOCK_DIV ;;
  write_cmd _DEFAULT_CLOCK_DIV ;;
  write_cmd _SET_MULTIPLEX_RATIO ;;
  h <- gets (fun s => height (self s)) ;;
  write_cmd (h - 1) ;;
  write_cmd _SET_DISPLAY_OFFSET ;;
  write_cmd 0x00 ;;
  write_cmd (Z.lor _SET_START_LINE 0x00) ;;
  write_cmd _SET_MEMORY_MODE ;;
  write_cmd _ADDR_MODE_HORIZONTAL ;;
  write_cmd _SET_SEG_REMAP_INV ;;
  write_cmd _SET_COM_SCAN_DEC ;;
  write_cmd _SET_COM_PINS ;;
  write_cmd _DEFAULT_COM_PINS ;;
  write_cmd _SET_CONTRAST ;;
  write_cmd _DEFAULT_CONTRAST ;;
  write_cmd _SET_PRECHARGE ;;
  write_cmd _DEFAULT_PRECHARGE ;;
  write_cmd _SET_VCOMH_DESELECT ;;
  write_cmd _DEFAULT_VCOMH ;;
  write_cmd _SET_DISPLAY_ALL_ON_RESUME ;;
  write_cmd _SET_NORMAL_DISPLAY ;;
  write_cmd _DEACTIVATE_SCROLL ;;
  write_cmd _DISPLAY_ON.

(** The constructor.  [super().__init__(self.buffer, width, height,
    MONO_VLSB)] only records the buffer it is given and its geometry; the
    buffer has exactly the size that format needs, so it has no effect on the
    store. *)
Definition __init__ (width0 height0 : Z) : M unit :=
  (if negb (width0 =? 128) || negb ((height0 =? 32) || (height0 =? 64))
   then raise ValueError else ret tt) ;;
  modify (fun s => set_self
    (mkSSD1309 width0 (height (self s)) (pages (self s)) (buffer (self s))) s) ;;
  modify (fun s => set_self
    (mkSSD1309 (width (self s)) height0 (pages (self s)) (buffer (self s))) s) ;;
  pin_init DC 0 ;;
  pin_init RST 1 ;;
  pin_init CS 1 ;;
  modify (fun s => set_self
    (mkSSD1309 (width (self s)) (height (self s)) (height0 / 8)
               (buffer (self s))) s) ;;
  p <- gets (fun s => pages (self s)) ;;
  buf <- bytearray (width0 * p) ;;
  modify (fun s => set_self
    (mkSSD1309 (width (self s)) (height (self s)) (pages (self s)) buf) s) ;;
  reset ;;
  init_display.

Definition show : M unit :=
  write_cmd _SET_COLUMN_ADDR ;;
  write_cmd 0x00 ;;
  w <- gets (fun s => width (self s)) ;;
  write_cmd (w - 1) ;;
  write_cmd _SET_PAGE_ADDR ;;
  write_cmd 0x00 ;;
  p <- gets (fun s => pages (self s)) ;;
  write_cmd (p - 1) ;;
  buf <- gets (fun s => buffer (self s)) ;;
  write_data buf.

Definition contrast (value : Z) : M unit :=
  let value := Z.max 0 (Z.min 255 value) in
  write_cmd _SET_CONTRAST ;;
  write_cmd value.

Definition invert (invert : bool) : M unit :=
  if invert then write_cmd _SET_INVERTED_DISPLAY
  else write_cmd _SET_NORMAL_DISPLAY.

Definition poweroff : M unit := write_cmd _DISPLAY_OFF.

Definition poweron : M unit := write_cmd _DISPLAY_ON.

(** ** Callers *)

(** The public operations a caller issues once the display is constructed. *)
Inductive op : Type :=
| OpShow
| OpContrast (value : Z)
| OpInvert (flag : bool)
| OpPoweroff
| OpPoweron.

Definition call (o : op) : M unit :=
  match o with
  | OpShow => show
  | OpContrast v => contrast v
  | OpInvert b => invert b
  | OpPoweroff => poweroff
  | OpPoweron => poweron
  end.

(** What the drawing primitives inherited from [FrameBuffer] ([fill],
    [pixel], [text], ...) do to the store: they rewrite bytes of the shared
    buffer in place, and never resize it. *)
Definition draw (buf' : list Z) (s : state) : state :=
  set_self (mkSSD1309 (width (self s)) (height (self s)) (pages (self s)) buf') s.

(** One step of a program using the display: any operation or any of the
    lower-level methods, whether it returns or raises, or a drawing call. *)
Inductive step : state -> state -> Prop :=
| step_call (o : op) (s : state) : step s (snd (call o s))
| step_reset (s : state) : step s (snd (reset s))
| step_init_display (s : state) : step s (snd (init_display s))
| step_write_cmd (cmd : Z) (s : state) : step s (snd (write_cmd cmd s))
| step_write_data (buf : list Z) (s : state) : step s (snd (write_data buf s))
| step_draw (buf' : list Z) (s : state) :
    length buf' = length (buffer (self s)) -> step s (draw buf' s).

Inductive steps : state -> state -> Prop :=
| steps_refl (s : state) : steps s s
| steps_cons (s1 s2 s3 : state) : steps s1 s2 -> step s2 s3 -> steps s1 s3.

(** As [step], for a program in which every operation returned normally. *)
Inductive step_ok : state -> state -> Prop :=
| step_ok_call (o : op) (s s' : state) :
    call o s = (Ok tt, s') -> step_ok s s'
| step_ok_draw (buf' : list Z) (s : state) :
    length buf' = length (buffer (self s)) -> step_ok s (draw buf' s).

Inductive steps_ok : state -> state -> Prop :=
| steps_ok_refl (s : state) : steps_ok s s
| steps_ok_cons (s1 s2 s3 : state) :
    steps_ok s1 s2 -> step_ok s2 s3 -> steps_ok s1 s3.

(** ** Observers of the trace *)

Inductive mode : Type := Command | Data.

Inductive frame : Type := Frame (m : mode) (payload : list Z).

(** What the controller receives: the byte runs written while chip-select
    is low, each tagged by the level of the data/command line at that time.
    [c] and [d] are the levels of CS and DC before the first event. *)
Fixpoint bus_frames (c d : Z) (evs : list event) : list frame :=
  match evs with
  | [] => []
  | PinInit CS v :: r | PinSet CS v :: r => bus_frames v d r
  | PinInit DC v :: r | PinSet DC v :: r => bus_frames c v r
  | SpiWrite buf :: r =>
      if c =? 0
      then Frame (if d =? 0 then Command else Data) buf :: bus_frames c d r
      else bus_frames c d r
  | _ :: r => bus_frames c d r
  end.

(** The command stream: the bytes of the command-mode frames, in order. *)
Fixpoint cmd_bytes (fs : list frame) : list Z :=
  match fs with
  | [] => []
  | Frame Command p :: r => p ++ cmd_bytes r
  | Frame Data _ :: r => cmd_bytes r
  end.

(** The events a computation added to the trace of [s]. *)
Definition emitted (s s' : state) : list event :=
  skipn (length (trace s)) (trace s').

(** The reset line as a waveform: the successive levels it is driven to
    before the first bus transfer, each with the delay spent at that level.
    Driving the line to the level it already has continues the segment. *)
Definition flush (cur : option (Z * Z)) : list (Z * Z) :=
  match cur with Some seg => [seg] | None => [] end.

Definition drive (cur : option (Z * Z)) (v : Z) : list (Z * Z) * option (Z * Z) :=
  match cur with
  | Some (l, d) => if l =? v then ([], cur) else ([(l, d)], Some (v, 0))
  | None => ([], Some (v, 0))
  end.

Fixpoint rst_waveform (cur : option (Z * Z)) (evs : list event) : list (Z * Z) :=
  match evs with
  | [] => flush cur
  | PinInit RST v :: r | PinSet RST v :: r =>
      fst (drive cur v) ++ rst_waveform (snd (drive cur v)) r
  | SleepMs ms :: r =>
      rst_waveform (option_map (fun seg => (fst seg, snd seg + ms)) cur) r
  | SpiWrite _ :: _ | SpiError _ :: _ => flush cur
  | _ :: r => rst_waveform cur r
  end.

(** ** The wire contract, in the words of the specification *)

Module Wire.

(** The opcode table: one constructor per row. *)
Inductive command : Type :=
| Unlock
| DisplayOff
| DisplayOn
| ClockDivide (v : Z)
| MultiplexRatio (v : Z)
| DisplayOffset (v : Z)
| StartLine (line : Z)
| AddressingMode (v : Z)
| SegmentRemap (mirrored : bool)
| ComScanDirection (remapped : bool)
| ComPinsConfig (v : Z)
| Contrast (v : Z)
| Precharge (v : Z)
| Vcomh (v : Z)
| ResumeFromRam
| NormalDisplay
| InvertedDisplay
| DeactivateScroll
| ColumnAddress (first last : Z)
| PageAddress (first last : Z).

Definition encode (c : command) : list Z :=
  match c with
  | Unlock => [0xFD; 0x12]
  | DisplayOff => [0xAE]
  | DisplayOn => [0xAF]
  | ClockDivide v => [0xD5; v]
  | MultiplexRatio v => [0xA8; v]
  | DisplayOffset v => [0xD3; v]
  | StartLine line => [0x40 + line]
  | AddressingMode v => [0x20; v]
  | SegmentRemap mirrored => [if mirrored then 0xA1 else 0xA0]
  | ComScanDirection remapped => [if remapped then 0xC8 else 0xC0]
  | ComPinsConfig v => [0xDA; v]
  | Contrast v => [0x81; v]
  | Precharge v => [0xD9; v]
  | Vcomh v => [0xDB; v]
  | ResumeFromRam => [0xA4]
  | NormalDisplay => [0xA6]
  | InvertedDisplay => [0xA7]
  | DeactivateScroll => [0x2E]
  | ColumnAddress first last => [0x21; first; last]
  | PageAddress first last => [0x22; first; last]
  end.

(** Steps 2 to 16 of the initialization order; the parameters the
    specification calls defaults are the driver's [_DEFAULT_*] constants
    and its hard-coded orientation. *)
Definition init_middle (height : Z) : list command :=
  [ DisplayOff;
    ClockDivide _DEFAULT_CLOCK_DIV;
    MultiplexRatio (height - 1);
    DisplayOffset 0;
    StartLine 0;
    AddressingMode 0x00;
    SegmentRemap true;
    ComScanDirection true;
    ComPinsConfig _DEFAULT_COM_PINS;
    Contrast _DEFAULT_CONTRAST;
    Precharge _DEFAULT_PRECHARGE;
    Vcomh _DEFAULT_VCOMH;
    ResumeFromRam;
    NormalDisplay;
    DeactivateScroll ].

(** Number of parameter bytes that follow an opcode (third column of the
    table). *)
Definition arity (opcode : Z) : nat :=
  if (opcode =? 0x21) || (opcode =? 0x22) then 2
  else if (opcode =? 0xFD) || (opcode =? 0xD5) || (opcode =? 0xA8)
          || (opcode =? 0xD3) || (opcode =? 0x20) || (opcode =? 0xDA)
          || (opcode =? 0x81) || (opcode =? 0xD9) || (opcode =? 0xDB) then 1
  else 0.

(** The controller's view of a command stream: with [pending] parameter
    bytes still owed to the previous opcode, the bytes that are decoded as
    opcodes. *)
Fixpoint opcodes (pending : nat) (stream : list Z) : list Z :=
  match stream with
  | [] => []
  | b :: r =>
      match pending with
      | O => b :: opcodes (arity b) r
      | S n => opcodes n r
      end
  end.

(** The charge-pump command of the SSD1306 family, which the module's
    header excludes: NO charge pump command (0x8D). *)
Definition charge_pump : Z := 0x8D.

End Wire.

(** ** Vocabulary of the statements *)

(** A computation that touches the hardware layer only: it leaves the driver
    object and the transport's fault schedule alone, and only ever appends
    to the trace. *)
Definition hal_only {A} (m : M A) : Prop :=
  forall s,
    self (snd (m s)) = self s /\
    spi_faults (snd (m s)) = spi_faults s /\
    exists evs, trace (snd (m s)) = trace s ++ evs.

(** The events of one framed command write and of one framed data write
    that the transport took. *)
Definition cmd_frame (b : Z) : list event :=
  [PinSet CS 0; PinSet DC 0; SpiWrite [b]; PinSet CS 1].

Definition data_frame (buf : list Z) : list event :=
  [PinSet CS 0; PinSet DC 1; SpiWrite buf; PinSet CS 1].

(** The store after the events [evs] of a framed write that made one
    transport call and left the lines at [c] and [d]. *)
Definition framed (c d : Z) (evs : list event) (s : state) : state :=
  mkState (self s) c d (rst s) (trace s ++ evs) (spi_faults s)
          (S (spi_calls s)).

(** The test [bytes([b])] makes on its item. *)
Definition is_byte (b : Z) : bool := (0 <=? b) && (b <=? 255).

(** The transport takes the next [n] writes. *)
Definition no_fault (n : nat) (s : state) : Prop :=
  forall k, (k < n)%nat -> spi_faults s (k + spi_calls s)%nat = false.

(** Sample stores. *)
Definition blank : SSD1309_SPI := mkSSD1309 0 0 0 [].

(** The lines at their idle levels, nothing logged, the object not yet
    initialised, and a transport with the given fault schedule. *)
Definition power_up (faults : nat -> bool) : state :=
  mkState blank 1 0 1 [] faults 0.

Definition healthy : nat -> bool := fun _ => false.
Definition dead : nat -> bool := fun _ => true.

(** The single command byte [b] an operation sends, with its outcome. *)
Definition one_command (b : Z) (s : state) : result unit * state :=
  if spi_faults s (spi_calls s)
  then (Raise OSError, framed 0 0 [PinSet CS 0; PinSet DC 0; SpiError [b]] s)
  else (Ok tt, framed 1 0 (cmd_frame b) s).

(** The geometries the constructor accepts. *)
Definition supported (W H : Z) : Prop := W = 128 /\ (H = 32 \/ H = 64).

(** The events of [reset], and of the three [Pin.init] calls before it. *)
Definition reset_events : list event :=
  [PinSet RST 1; SleepMs 1; PinSet RST 0; SleepMs 10; PinSet RST 1; SleepMs 10].

Definition wiring_events : list event :=
  [PinInit DC 0; PinInit RST 1; PinInit CS 1].

(** The store on entry to [init_display] in the constructor: attributes
    set, pins configured, hardware reset done. *)
Definition wired (W H : Z) (s : state) : state :=
  mkState (mkSSD1309 W H (H / 8) (repeat 0 (Z.to_nat (W * (H / 8)))))
          1 0 1 (trace s ++ wiring_events ++ reset_events)
          (spi_faults s) (spi_calls s).

(** The command bytes of [init_display], in program order. *)
Definition init_bytes (H : Z) : list Z :=
  [0xFD; 0x12; 0xAE; 0xD5; 0x80; 0xA8; H - 1; 0xD3; 0x00; 0x40; 0x20; 0x00;
   0xA1; 0xC8; 0xDA; 0x12; 0x81; 0xCF; 0xD9; 0xF1; 0xDB; 0x30; 0xA4; 0xA6;
   0x2E; 0xAF].

(** The store after the command bytes [l] went out one framed write each. *)
Fixpoint sent_cmds (l : list Z) (s : state) : state :=
  match l with
  | [] => s
  | b :: r => sent_cmds r (framed 1 0 (cmd_frame b) s)
  end.

(** What construction establishes and every later step keeps. *)
Definition ready (W H : Z) (s : state) : Prop :=
  supported W H /\
  width (self s) = W /\ height (self s) = H /\ pages (self s) = H / 8 /\
  Z.of_nat (length (buffer (self s))) = W * (H / 8).

(** [s] is a store some program reached after constructing the display with
    geometry [W] x [H]. *)
Definition constructed (W H : Z) (s : state) : Prop :=
  exists s0 s1, __init__ W H s0 = (Ok tt, s1) /\ steps s1 s.

(** A transport whose 27th write, the first one after a construction,
    raises. *)
Definition flaky : nat -> bool := fun n => Nat.eqb n 26.

(** Constructed 128 x 64 on the flaky transport; then a [show] that raises
    on its first write and leaves chip-select low; then the buffer filled
    with set bits. *)
Definition after_failed_show : state :=
  draw (repeat 0xFF 1024)
       (snd (call OpShow
                  (sent_cmds (init_bytes 64) (wired 128 64 (power_up flaky))))).

(** Equality test on control lines. *)
Definition pin_eqb (p q : pin) : bool :=
  match p, q with
  | CS, CS | DC, DC | RST, RST => true
  | _, _ => false
  end.

(** Level of line [p] after the events [evs], given its level [v] before. *)
Fixpoint level_after (p : pin) (v : Z) (evs : list event) : Z :=
  match evs with
  | [] => v
  | PinInit q x :: r | PinSet q x :: r =>
      level_after p (if pin_eqb p q then x else v) r
  | _ :: r => level_after p v r
  end.

(** Parameter bytes still owed once the controller has decoded [stream]. *)
Fixpoint pending_after (pending : nat) (stream : list Z) : nat :=
  match stream with
  | [] => pending
  | b :: r =>
      match pending with
      | O => pending_after (Wire.arity b) r
      | S n => pending_after n r
      end
  end.

(** The command bytes of each operation, in program order. *)
Definition op_cmds (o : op) (s : state) : list Z :=
  match o with
  | OpShow => [0x21; 0x00; width (self s) - 1; 0x22; 0x00; pages (self s) - 1]
  | OpContrast v => [0x81; Z.max 0 (Z.min 255 v)]
  | OpInvert b => [if b then 0xA7 else 0xA6]
  | OpPoweroff => [0xAE]
  | OpPoweron => [0xAF]
  end.

(** The data write that follows them, if any. *)
Definition op_data (o : op) (s : state) : list event :=
  match o with
  | OpShow => data_frame (buffer (self s))
  | _ => []
  end.

(** A trace is clean when the controller, decoding its command stream from
    the start, ends on a command boundary and has met no charge-pump
    opcode. *)
Definition clean (c0 d0 : Z) (evs : list event) : Prop :=
  pending_after 0 (cmd_bytes (bus_frames c0 d0 evs)) = 0%nat /\
  ~ In Wire.charge_pump (Wire.opcodes 0 (cmd_bytes (bus_frames c0 d0 evs))).

(** A session on a healthy transport: constructed 128 x 64, contrast set to
    141, display inverted, buffer drawn to, shown. *)
Definition session_init : state :=
  sent_cmds (init_bytes 64) (wired 128 64 (power_up healthy)).

Definition session_contrast : state := snd (call (OpContrast 141) session_init).

Definition session_inverted : state :=
  snd (call (OpInvert true) session_contrast).

Definition session_drawn : state :=
  draw (repeat 0xFF 512 ++ repeat 0x00 512) session_inverted.

Definition session : state := snd (call OpShow session_drawn).

(** ** Vocabulary for the behaviour on an arbitrary transport *)

(** A run of framed command writes, one [write_cmd] per byte. *)
Fixpoint write_cmds (l : list Z) : M unit :=
  match l with
  | [] => ret tt
  | b :: r => write_cmd b ;; write_cmds r
  end.

(** How many of the [n] transport calls numbered [from], [from + 1], ... go
    through before the first one that raises. *)
Fixpoint taken (faults : nat -> bool) (from n : nat) : nat :=
  match n with
  | O => O
  | S m => if faults from then O else S (taken faults (S from) m)
  end.

(** The store after a run of command writes whose write number [k] raised:
    the [k] bytes before it went out, the chip stays selected. *)
Definition failed_cmds (k : nat) (l : list Z) (s : state) : state :=
  framed 0 0 [PinSet CS 0; PinSet DC 0; SpiError [nth k l 0]]
         (sent_cmds (firstn k l) s).

(** Events that concern the bus side only: chip-select, data/command and
    transfers; not the reset line, not pin configuration, not delays. *)
Definition bus_event (e : event) : bool :=
  match e with
  | PinSet CS _ | PinSet DC _ | SpiWrite _ | SpiError _ => true
  | _ => false
  end.

Definition bus_only {A} (m : M A) : Prop :=
  forall s,
    rst (snd (m s)) = rst s /\
    exists evs, trace (snd (m s)) = trace s ++ evs /\
                forallb bus_event evs = true.

(** A caller issuing operations one after the other; an exception ends the
    run. *)
Fixpoint run (ops : list op) : M unit :=
  match ops with
  | [] => ret tt
  | o :: r => call o ;; run r
  end.

(** Transport calls an operation makes when none of them raises, and the
    frames it then puts on the bus. *)
Definition op_writes (o : op) : nat :=
  match o with
  | OpShow => 7
  | OpContrast _ => 2
  | _ => 1
  end.

Definition op_frames (o : op) (s : state) : list frame :=
  map (fun b => Frame Command [b]) (op_cmds o s)
  ++ match o with
     | OpShow => [Frame Data (buffer (self s))]
     | _ => []
     end.

(** The data write that ends an operation, as a computation. *)
Definition op_tail_write (o : op) (s : state) : M unit :=
  match o with
  | OpShow => write_data (buffer (self s))
  | _ => ret tt
  end.

(** Transport calls of a run of operations none of which raises. *)
Definition run_writes (ops : list op) : nat := list_sum (map op_writes ops).

(** ** The demonstration script ([main.py]) *)

Module Demo.

(** The calls the script's helpers make on the display object, in order.
    The [FrameBuffer] drawing methods are external to the repository: a
    call is recorded with its arguments, not interpreted.  [FilledCircle]
    records a call of the script's own [draw_filled_circle], which computes
    its spans in floating point and is left uninterpreted too. *)
Inductive draw_call : Type :=
| Fill (color : Z)
| Rect (x y w h color : Z)
| FillRect (x y w h color : Z)
| Pixel (x y color : Z)
| Text (text : String.string) (x y color : Z)
| FilledCircle (cx cy r color : Z)
| ShowCall.

(** [range(n)] *)
Definition range (n : Z) : list Z := map Z.of_nat (seq 0 (Z.to_nat n)).

Definition draw_border (width height color : Z) : list draw_call :=
  [Rect 0 0 width height color].

(** [width] is [oled.width]; [len(text)] counts the characters. *)
Definition draw_centered_text (width : Z) (text : String.string)
    (y color : Z) : list draw_call :=
  let text_width := Z.of_nat (String.length text) * 8 in
  let x := (width - text_width) / 2 in
  [Text text x y color].

(** The eight [oled.pixel] calls of one pass of the loop of
    [draw_circle_outline]. *)
Definition octants (cx cy x y color : Z) : list draw_call :=
  [ Pixel (cx + x) (cy + y) color;
    Pixel (cx + y) (cy + x) color;
    Pixel (cx - y) (cy + x) color;
    Pixel (cx - x) (cy + y) color;
    Pixel (cx - x) (cy - y) color;
    Pixel (cx - y) (cy - x) color;
    Pixel (cx + y) (cy - x) color;
    Pixel (cx + x) (cy - y) color ].

(** The [while x >= y] loop, with a bound on the number of passes; [None]
    means the bound was reached with the loop still running. *)
Fixpoint circle_loop (fuel : nat) (cx cy color x y err : Z)
  : option (list draw_call) :=
  if x >=? y then
    match fuel with
    | O => None
    | S fuel' =>
        let pts := octants cx cy x y color in
        let y := y + 1 in
        let err := err + (1 + 2 * y) in
        let xe := if 2 * (err - x) + 1 >? 0
                  then (x - 1, err + (1 - 2 * (x - 1)))
                  else (x, err) in
        option_map (app pts)
                   (circle_loop fuel' cx cy color (fst xe) y (snd xe))
    end
  else Some [].

Definition draw_circle_outline (cx cy r color : Z) : option (list draw_call) :=
  circle_loop (Z.to_nat (r + 1)) cx cy color r 0 0.

(** The pairs [(x, y)] the loop passes through. *)
Fixpoint circle_points (fuel : nat) (x y err : Z) : option (list (Z * Z)) :=
  if x >=? y then
    match fuel with
    | O => None
    | S fuel' =>
        let y' := y + 1 in
        let err := err + (1 + 2 * y') in
        let xe := if 2 * (err - x) + 1 >? 0
                  then (x - 1, err + (1 - 2 * (x - 1)))
                  else (x, err) in
        option_map (cons (x, y)) (circle_points fuel' (fst xe) y' (snd xe))
    end
  else Some [].

(** [demo_checkerboard]: clear, fill every other 8 x 8 square, show. *)
Definition demo_checkerboard (width height : Z) : list draw_call :=
  let square_size := 8 in
  [Fill 0]
  ++ flat_map (fun row =>
       flat_map (fun col =>
         if (row + col) mod 2 =? 0
         then [FillRect (col * square_size) (row * square_size)
                        square_size square_size 1]
         else [])
         (range (width / square_size)))
       (range (height / square_size))
  ++ [ShowCall].

(** The frame loop of [demo_animation]. *)
Fixpoint animation_loop (frames : nat) (width height radius x y dx dy : Z)
  : list draw_call :=
  match frames with
  | O => []
  | S n =>
      [Fill 0] ++ draw_border width height 1 ++ [FilledCircle x y radius 1]
      ++ (let x := x + dx in
          let y := y + dy in
          let dx := if (x <=? radius + 1) || (x >=? width - radius - 2)
                    then - dx else dx in
          let dy := if (y <=? radius + 1) || (y >=? height - radius - 2)
                    then - dy else dy in
          ShowCall :: animation_loop n width height radius x y dx dy)
  end.

Definition demo_animation (width height : Z) : list draw_call :=
  animation_loop 60 width height 5 64 32 3 2.

(** The bouncing rule keeps a coordinate [x] moving by [dx] near the
    interval from [lo] to [hi]: either strictly inside it, or just beyond
    one end and heading back. *)
Definition near (lo hi x dx : Z) : Prop :=
  dx <> 0 /\
  ((lo < x < hi)
   \/ (hi <= x < hi + Z.abs dx /\ dx < 0)
   \/ (lo - Z.abs dx < x <= lo /\ 0 < dx)).

End Demo.

(** * Reasoning about the monad *)

Section MonadLaws.
Context {A B : Type}.

Lemma bind_ok (m : M A) (k : A -> M B) s a s1 :
  m s = (Ok a, s1) -> bind m k s = k a s1.
Proof. unfold bind; intros ->; reflexivity. Qed.

Lemma bind_raise (m : M A) (k : A -> M B) s e s1 :
  m s = (Raise e, s1) -> bind m k s = (Raise e, s1).
Proof. unfold bind; intros ->; reflexivity. Qed.

Lemma bind_inv_ok (m : M A) (k : A -> M B) s b s' :
  bind m k s = (Ok b, s') ->
  exists a s1, m s = (Ok a, s1) /\ k a s1 = (Ok b, s').
Proof.
  unfold bind; destruct (m s) as [[a | e] s1]; intros H.
  - exists a, s1; split; [reflexivity | exact H].
  - discriminate H.
Qed.
End MonadLaws.

(** ** Computations that touch the hardware layer only *)

Lemma hal_only_ret {A} (a : A) : hal_only (ret a).
Proof. intros s; cbn; repeat split; exists []; now rewrite app_nil_r. Qed.

Lemma hal_only_raise {A} (e : exn) : hal_only (@raise A e).
Proof. intros s; cbn; repeat split; exists []; now rewrite app_nil_r. Qed.

Lemma hal_only_gets {A} (f : state -> A) : hal_only (gets f).
Proof. intros s; cbn; repeat split; exists []; now rewrite app_nil_r. Qed.

Lemma hal_only_bind {A B} (m : M A) (k : A -> M B) :
  hal_only m -> (forall a, hal_only (k a)) -> hal_only (bind m k).
Proof.
  intros Hm Hk s. unfold bind.
  destruct (Hm s) as (H1 & H2 & evs & H3).
  destruct (m s) as [[a | e] s1]; cbn in *.
  - destruct (Hk a s1) as (K1 & K2 & evs' & K3).
    rewrite K1, K2, K3, H1, H2, H3.
    repeat split. exists (evs ++ evs'). now rewrite app_assoc.
  - repeat split; trivial. now exists evs.
Qed.

Lemma hal_only_pin_value p v : hal_only (pin_value p v).
Proof. intros s; destruct p; cbn; repeat split; eexists; reflexivity. Qed.

Lemma hal_only_pin_init p v : hal_only (pin_init p v).
Proof. intros s; destruct p; cbn; repeat split; eexists; reflexivity. Qed.

Lemma hal_only_sleep_ms ms : hal_only (sleep_ms ms).
Proof. intros s; cbn; repeat split; eexists; reflexivity. Qed.

Lemma hal_only_spi_write buf : hal_only (spi_write buf).
Proof.
  intros s; unfold spi_write.
  destruct (spi_faults s (spi_calls s)); cbn; repeat split; eexists; reflexivity.
Qed.

Lemma hal_only_bytes l : hal_only (bytes l).
Proof.
  unfold bytes. destruct (forallb _ l); [apply hal_only_ret | apply hal_only_raise].
Qed.

Create HintDb hal.
#[local] Hint Resolve hal_only_ret hal_only_raise hal_only_gets hal_only_bind
  hal_only_pin_value hal_only_pin_init hal_only_sleep_ms hal_only_spi_write
  hal_only_bytes : hal.

Ltac hal_tac := repeat (apply hal_only_bind; [ | intros ? ]); auto with hal.

Lemma hal_only_reset : hal_only reset.
Proof. unfold reset; hal_tac. Qed.

Lemma hal_only_write_cmd cmd : hal_only (write_cmd cmd).
Proof. unfold write_cmd; hal_tac. Qed.

Lemma hal_only_write_data buf : hal_only (write_data buf).
Proof. unfold write_data; hal_tac. Qed.

#[local] Hint Resolve hal_only_reset hal_only_write_cmd hal_only_write_data : hal.

Lemma hal_only_init_display : hal_only init_display.
Proof. unfold init_display; hal_tac. Qed.

Lemma hal_only_show : hal_only show.
Proof. unfold show; hal_tac. Qed.

Lemma hal_only_contrast v : hal_only (contrast v).
Proof. unfold contrast; hal_tac. Qed.

Lemma hal_only_invert b : hal_only (invert b).
Proof. unfold invert; destruct b; hal_tac. Qed.

Lemma hal_only_poweroff : hal_only poweroff.
Proof. unfold poweroff; hal_tac. Qed.

Lemma hal_only_poweron : hal_only poweron.
Proof. unfold poweron; hal_tac. Qed.

Lemma hal_only_call o : hal_only (call o).
Proof.
  destruct o; cbn [call];
    auto using hal_only_show, hal_only_contrast, hal_only_invert,
               hal_only_poweroff, hal_only_poweron.
Qed.

(** ** One framed command write, step by step *)

Lemma write_cmd_run (b : Z) (s : state) :
  write_cmd b s =
  if is_byte b then
    if spi_faults s (spi_calls s)
    then (Raise OSError,
          framed 0 0 [PinSet CS 0; PinSet DC 0; SpiError [b]] s)
    else (Ok tt, framed 1 0 (cmd_frame b) s)
  else (Raise ValueError,
        mkState (self s) 0 0 (rst s) (trace s ++ [PinSet CS 0; PinSet DC 0])
                (spi_faults s) (spi_calls s)).
Proof.
  unfold write_cmd, bind, pin_value, modify, bytes, spi_write, is_byte, framed,
    cmd_frame, log, count_call, set_pin.
  cbn [forallb self cs dc rst trace spi_faults spi_calls].
  rewrite andb_true_r.
  destruct ((0 <=? b) && (b <=? 255)); cbn.
  - destruct (spi_faults s (spi_calls s)); cbn;
      rewrite <- !app_assoc; reflexivity.
  - rewrite <- !app_assoc; reflexivity.
Qed.

Lemma write_data_run (buf : list Z) (s : state) :
  write_data buf s =
  if spi_faults s (spi_calls s)
  then (Raise OSError,
        framed 0 1 [PinSet CS 0; PinSet DC 1; SpiError buf] s)
  else (Ok tt, framed 1 1 (data_frame buf) s).
Proof.
  unfold write_data, bind, pin_value, modify, spi_write, framed, data_frame,
    log, count_call, set_pin.
  cbn [self cs dc rst trace spi_faults spi_calls].
  destruct (spi_faults s (spi_calls s)); cbn;
    rewrite <- !app_assoc; reflexivity.
Qed.

Lemma no_fault_framed n c d evs s :
  no_fault (S n) s -> no_fault n (framed c d evs s).
Proof.
  intros H k Hk. cbn. rewrite Nat.add_succ_r. apply (H (S k)). lia.
Qed.

Lemma no_fault_now n s : no_fault (S n) s -> spi_faults s (spi_calls s) = false.
Proof. intros H. apply (H 0%nat). lia. Qed.

Lemma write_cmd_sent (b : Z) (s : state) n :
  is_byte b = true -> no_fault (S n) s ->
  write_cmd b s = (Ok tt, framed 1 0 (cmd_frame b) s).
Proof.
  intros Hb Hf. rewrite write_cmd_run, Hb, (no_fault_now _ _ Hf). reflexivity.
Qed.

Lemma write_data_sent (buf : list Z) (s : state) n :
  no_fault (S n) s ->
  write_data buf s = (Ok tt, framed 1 1 (data_frame buf) s).
Proof.
  intros Hf. rewrite write_data_run, (no_fault_now _ _ Hf). reflexivity.
Qed.

(** [write_cmd b ;; k] on a transport that takes the byte. *)
Lemma write_cmd_then {B} (b : Z) (k : M B) (s : state) n :
  is_byte b = true -> no_fault (S n) s ->
  (write_cmd b ;; k) s = k (framed 1 0 (cmd_frame b) s).
Proof.
  intros Hb Hf.
  apply (bind_ok (write_cmd b) (fun _ => k) s tt).
  eapply write_cmd_sent; eassumption.
Qed.

Lemma framed_framed c d evs c' d' evs' s :
  trace (framed c' d' evs' (framed c d evs s)) = trace s ++ evs ++ evs'.
Proof. cbn. now rewrite app_assoc. Qed.

Lemma emitted_app s s' evs : trace s' = trace s ++ evs -> emitted s s' = evs.
Proof.
  unfold emitted. intros ->.
  rewrite skipn_app, Nat.sub_diag, skipn_all. reflexivity.
Qed.

Lemma bus_frames_cmd_frame c d b r :
  bus_frames c d (cmd_frame b ++ r) = Frame Command [b] :: bus_frames 1 0 r.
Proof. reflexivity. Qed.

Lemma bus_frames_data_frame c d buf r :
  bus_frames c d (data_frame buf ++ r) = Frame Data buf :: bus_frames 1 1 r.
Proof. reflexivity. Qed.

Lemma no_fault_healthy n o c d r t k : no_fault n (mkState o c d r t healthy k).
Proof. intros i _. reflexivity. Qed.

(** * Framed writes and chip-select *)

(** C5, as stated, fails: on a transport that raises, both framed writes
    leave through the exception with chip-select still low, although it was
    high before the call. *)
Lemma framed_write_leaves_selected :
  cs (power_up dead) = 1 /\
  write_cmd 0xAF (power_up dead)
  = (Raise OSError,
     mkState blank 0 0 1 [PinSet CS 0; PinSet DC 0; SpiError [0xAF]] dead 1) /\
  write_data [0xFF] (power_up dead)
  = (Raise OSError,
     mkState blank 0 1 1 [PinSet CS 0; PinSet DC 1; SpiError [0xFF]] dead 1) /\
  cs (snd (write_cmd 0xAF (power_up dead))) <> 1 /\
  cs (snd (write_data [0xFF] (power_up dead))) <> 1.
Proof. repeat split; cbn; discriminate. Qed.

(** C5, amended: a framed write selects the chip (chip-select 0), sets the
    data/command line to its mode (0 for a command byte, 1 for data) and
    hands the bytes to the transport.  When the transport write returns, the
    bytes went out as one frame in that mode and chip-select is returned
    to 1.  When it raises, the exception leaves the method at once:
    nothing went out and chip-select stays at 0; likewise when the command
    byte cannot be formed, in which case the transport is not even called.
    The equations give, for either method and each outcome, the result, the
    events added to the trace in order, and every line level. *)
Theorem framed_write_chip_select (s : state) (b : Z) (buf : list Z) :
  write_cmd b s
  = (if is_byte b then
       if spi_faults s (spi_calls s)
       then (Raise OSError,
             mkState (self s) 0 0 (rst s)
                     (trace s ++ [PinSet CS 0; PinSet DC 0; SpiError [b]])
                     (spi_faults s) (S (spi_calls s)))
       else (Ok tt,
             mkState (self s) 1 0 (rst s)
                     (trace s
                      ++ [PinSet CS 0; PinSet DC 0; SpiWrite [b]; PinSet CS 1])
                     (spi_faults s) (S (spi_calls s)))
     else (Raise ValueError,
           mkState (self s) 0 0 (rst s)
                   (trace s ++ [PinSet CS 0; PinSet DC 0])
                   (spi_faults s) (spi_calls s))) /\
  write_data buf s
  = (if spi_faults s (spi_calls s)
     then (Raise OSError,
           mkState (self s) 0 1 (rst s)
                   (trace s ++ [PinSet CS 0; PinSet DC 1; SpiError buf])
                   (spi_faults s) (S (spi_calls s)))
     else (Ok tt,
           mkState (self s) 1 1 (rst s)
                   (trace s
                    ++ [PinSet CS 0; PinSet DC 1; SpiWrite buf; PinSet CS 1])
                   (spi_faults s) (S (spi_calls s)))) /\
  bus_frames (cs s) (dc s) (emitted s (snd (write_cmd b s)))
  = (if is_byte b && negb (spi_faults s (spi_calls s))
     then [Frame Command [b]] else []) /\
  bus_frames (cs s) (dc s) (emitted s (snd (write_data buf s)))
  = (if spi_faults s (spi_calls s) then [] else [Frame Data buf]) /\
  fst (write_cmd b s)
  = (if is_byte b
     then if spi_faults s (spi_calls s) then Raise OSError else Ok tt
     else Raise ValueError) /\
  cs (snd (write_cmd b s))
  = (if is_byte b && negb (spi_faults s (spi_calls s)) then 1 else 0) /\
  fst (write_data buf s)
  = (if spi_faults s (spi_calls s) then Raise OSError else Ok tt) /\
  cs (snd (write_data buf s))
  = (if spi_faults s (spi_calls s) then 0 else 1).
Proof.
  rewrite write_cmd_run, write_data_run.
  unfold framed, cmd_frame, data_frame.
  destruct (is_byte b), (spi_faults s (spi_calls s)); cbn [fst snd andb negb cs];
    repeat split;
    try (erewrite emitted_app by (cbn [trace]; reflexivity); reflexivity).
Qed.

(** * Contrast, invert, power *)

(** C6: on a transport that takes the two writes, [contrast level] sends
    the command byte 0x81 and then the command byte
    [max 0 (min 255 level)], nothing else, and leaves the driver object,
    hence the pixel buffer, as it was. *)
Theorem contrast_sends (level : Z) (s : state) :
  no_fault 2 s ->
  let v := Z.max 0 (Z.min 255 level) in
  contrast level s
  = (Ok tt, framed 1 0 (cmd_frame v) (framed 1 0 (cmd_frame 0x81) s)) /\
  emitted s (snd (contrast level s)) = cmd_frame 0x81 ++ cmd_frame v /\
  bus_frames (cs s) (dc s) (emitted s (snd (contrast level s)))
  = [Frame Command [0x81]; Frame Command [v]] /\
  0 <= v <= 255 /\
  (level <= 0 -> v = 0) /\ (255 <= level -> v = 255) /\
  (0 <= level <= 255 -> v = level) /\
  buffer (self (snd (contrast level s))) = buffer (self s).
Proof.
  intros Hf v.
  assert (Hv : is_byte v = true).
  { unfold is_byte, v. apply andb_true_intro; split; apply Z.leb_le; lia. }
  assert (Hrun : contrast level s
          = (Ok tt, framed 1 0 (cmd_frame v) (framed 1 0 (cmd_frame 0x81) s))).
  { unfold contrast. fold v.
    rewrite (write_cmd_then _SET_CONTRAST _ s 1 eq_refl Hf).
    apply (write_cmd_sent v _ 0 Hv).
    apply no_fault_framed, Hf. }
  rewrite Hrun. cbn [snd].
  rewrite (emitted_app s _ (cmd_frame 0x81 ++ cmd_frame v))
    by apply framed_framed.
  repeat split; try (unfold v; lia).
Qed.

Lemma contrast_sends_witness :
  bus_frames 1 0 (emitted (power_up healthy)
                          (snd (contrast (-5) (power_up healthy))))
  = [Frame Command [0x81]; Frame Command [0x00]] /\
  bus_frames 1 0 (emitted (power_up healthy)
                          (snd (contrast 300 (power_up healthy))))
  = [Frame Command [0x81]; Frame Command [0xFF]] /\
  bus_frames 1 0 (emitted (power_up healthy)
                          (snd (contrast 128 (power_up healthy))))
  = [Frame Command [0x81]; Frame Command [0x80]].
Proof.
  split; [ | split ].
  - apply (contrast_sends (-5) (power_up healthy)). apply no_fault_healthy.
  - apply (contrast_sends 300 (power_up healthy)). apply no_fault_healthy.
  - apply (contrast_sends 128 (power_up healthy)). apply no_fault_healthy.
Defined.

Lemma one_command_frames b s :
  bus_frames (cs s) (dc s) (emitted s (snd (one_command b s)))
  = if spi_faults s (spi_calls s) then [] else [Frame Command [b]].
Proof.
  unfold one_command. destruct (spi_faults s (spi_calls s)); cbn [snd].
  - erewrite emitted_app by reflexivity. reflexivity.
  - erewrite emitted_app by reflexivity. reflexivity.
Qed.

(** C8: [invert true] sends the one command byte 0xA7 and [invert false]
    the one command byte 0xA6 (nothing at all when the transport raises);
    neither touches the driver object, so the buffer after the pair of calls
    is the buffer before it. *)
Theorem invert_sends (s : state) :
  invert true s = one_command 0xA7 s /\
  invert false s = one_command 0xA6 s /\
  bus_frames (cs s) (dc s) (emitted s (snd (invert true s)))
  = (if spi_faults s (spi_calls s) then [] else [Frame Command [0xA7]]) /\
  bus_frames (cs s) (dc s) (emitted s (snd (invert false s)))
  = (if spi_faults s (spi_calls s) then [] else [Frame Command [0xA6]]) /\
  buffer (self (snd (invert true s))) = buffer (self s) /\
  buffer (self (snd (invert false s))) = buffer (self s) /\
  buffer (self (snd (invert false (snd (invert true s))))) = buffer (self s).
Proof.
  assert (Ht : invert true s = one_command 0xA7 s)
    by (unfold invert; rewrite write_cmd_run; reflexivity).
  assert (Hf : invert false s = one_command 0xA6 s)
    by (unfold invert; rewrite write_cmd_run; reflexivity).
  rewrite Ht, Hf, !one_command_frames.
  rewrite <- Ht, <- Hf.
  repeat split.
  - now rewrite (proj1 (hal_only_invert true s)).
  - now rewrite (proj1 (hal_only_invert false s)).
  - now rewrite (proj1 (hal_only_invert false _)),
                (proj1 (hal_only_invert true s)).
Qed.

(** C9: [poweroff] sends the one command byte 0xAE and [poweron] the one
    command byte 0xAF (nothing at all when the transport raises); neither
    touches the driver object, so the buffer survives the pair of calls. *)
Theorem power_sends (s : state) :
  poweroff s = one_command 0xAE s /\
  poweron s = one_command 0xAF s /\
  bus_frames (cs s) (dc s) (emitted s (snd (poweroff s)))
  = (if spi_faults s (spi_calls s) then [] else [Frame Command [0xAE]]) /\
  bus_frames (cs s) (dc s) (emitted s (snd (poweron s)))
  = (if spi_faults s (spi_calls s) then [] else [Frame Command [0xAF]]) /\
  buffer (self (snd (poweroff s))) = buffer (self s) /\
  buffer (self (snd (poweron s))) = buffer (self s) /\
  buffer (self (snd (poweron (snd (poweroff s))))) = buffer (self s).
Proof.
  assert (Hoff : poweroff s = one_command 0xAE s)
    by (unfold poweroff; rewrite write_cmd_run; reflexivity).
  assert (Hon : poweron s = one_command 0xAF s)
    by (unfold poweron; rewrite write_cmd_run; reflexivity).
  rewrite Hoff, Hon, !one_command_frames.
  rewrite <- Hoff, <- Hon.
  repeat split.
  - now rewrite (proj1 (hal_only_poweroff s)).
  - now rewrite (proj1 (hal_only_poweron s)).
  - now rewrite (proj1 (hal_only_poweron _)), (proj1 (hal_only_poweroff s)).
Qed.

(** C10: whatever the store and whatever the transport does, [show] leaves
    the driver object as it found it: same buffer, byte for byte, same
    width, height and pages. *)
Theorem show_reads_only (s : state) :
  buffer (self (snd (show s))) = buffer (self s) /\
  width (self (snd (show s))) = width (self s) /\
  height (self (snd (show s))) = height (self s) /\
  pages (self (snd (show s))) = pages (self s).
Proof.
  rewrite (proj1 (hal_only_show s)). repeat split.
Qed.

(** * Construction *)

Lemma sent_cmds_trace l s :
  trace (sent_cmds l s) = trace s ++ flat_map cmd_frame l.
Proof.
  revert s; induction l as [| b r IH]; intros s; cbn [sent_cmds flat_map].
  - now rewrite app_nil_r.
  - rewrite IH. cbn [framed trace]. now rewrite <- app_assoc.
Qed.

Lemma sent_cmds_self l s : self (sent_cmds l s) = self s.
Proof.
  revert s; induction l as [| b r IH]; intros s; cbn [sent_cmds]; trivial.
  now rewrite IH.
Qed.

Lemma bus_frames_cmds c d l :
  bus_frames c d (flat_map cmd_frame l) = map (fun b => Frame Command [b]) l.
Proof.
  revert c d; induction l as [| b r IH]; intros c d; cbn [flat_map map].
  - reflexivity.
  - rewrite bus_frames_cmd_frame, IH. reflexivity.
Qed.

Lemma bus_frames_cmds_then c d l r :
  bus_frames c d (flat_map cmd_frame l ++ r)
  = map (fun b => Frame Command [b]) l
    ++ bus_frames (match l with [] => c | _ => 1 end)
                  (match l with [] => d | _ => 0 end) r.
Proof.
  revert c d; induction l as [| b l' IH]; intros c d; cbn [flat_map map app].
  - reflexivity.
  - rewrite <- app_assoc, bus_frames_cmd_frame, IH. destruct l'; reflexivity.
Qed.

Lemma cmd_bytes_cmds l : cmd_bytes (map (fun b => Frame Command [b]) l) = l.
Proof. induction l as [| b r IH]; cbn; [ | rewrite IH ]; reflexivity. Qed.

Lemma gets_then {A B} (f : state -> A) (k : A -> M B) s :
  (x <- gets f ;; k x) s = k (f s) s.
Proof. reflexivity. Qed.

(** Consume the leading [write_cmd] of the goal, using and updating the
    fault hypothesis [Hf]. *)
Ltac send Hf :=
  lazymatch goal with
  | |- bind (write_cmd ?b) _ ?s = _ =>
      rewrite (write_cmd_then b _ s _ eq_refl Hf);
      apply (no_fault_framed _ 1 0 (cmd_frame b)) in Hf
  end.

Lemma init_display_run (s : state) :
  is_byte (height (self s) - 1) = true -> no_fault 26 s ->
  init_display s = (Ok tt, sent_cmds (init_bytes (height (self s))) s).
Proof.
  intros Hb Hf. unfold init_display.
  do 6 send Hf.
  rewrite gets_then. cbn [framed self].
  rewrite (write_cmd_then _ _ _ _ Hb Hf).
  apply (no_fault_framed _ 1 0 (cmd_frame (height (self s) - 1))) in Hf.
  do 18 send Hf.
  rewrite (write_cmd_sent _DISPLAY_ON _ 0 eq_refl Hf).
  reflexivity.
Qed.

Lemma init_supported (W H : Z) (s : state) :
  supported W H -> __init__ W H s = init_display (wired W H s).
Proof.
  intros [HW HH].
  assert (Hc : negb (W =? 128) || negb ((H =? 32) || (H =? 64)) = false)
    by (subst W; destruct HH; subst H; reflexivity).
  assert (Hn : (W * (H / 8) <? 0) = false)
    by (subst W; destruct HH; subst H; reflexivity).
  unfold __init__. rewrite Hc.
  cbv -[init_display Z.mul Z.div Z.to_nat repeat Z.ltb app].
  rewrite Hn.
  cbv -[init_display Z.mul Z.div Z.to_nat repeat Z.ltb app].
  rewrite <- !app_assoc. reflexivity.
Qed.

Lemma init_unsupported (W H : Z) (s : state) :
  ~ supported W H -> __init__ W H s = (Raise ValueError, s).
Proof.
  intros Hn.
  assert (Hc : negb (W =? 128) || negb ((H =? 32) || (H =? 64)) = true).
  { destruct (Z.eqb_spec W 128) as [HW | HW]; cbn [negb orb]; trivial.
    destruct (Z.eqb_spec H 32) as [H32 | H32]; cbn [negb orb].
    - exfalso. apply Hn. split; auto.
    - destruct (Z.eqb_spec H 64) as [H64 | H64]; cbn [negb]; trivial.
      exfalso. apply Hn. split; auto. }
  unfold __init__. rewrite Hc. reflexivity.
Qed.

Lemma supported_byte W H : supported W H -> is_byte (H - 1) = true.
Proof. intros [_ [-> | ->]]; reflexivity. Qed.

Lemma init_run (W H : Z) (s : state) :
  supported W H -> no_fault 26 s ->
  __init__ W H s = (Ok tt, sent_cmds (init_bytes H) (wired W H s)).
Proof.
  intros Hs Hf. rewrite (init_supported W H s Hs).
  apply (init_display_run (wired W H s)).
  - cbn. apply (supported_byte W H Hs).
  - exact Hf.
Qed.

Lemma init_emitted W H s :
  emitted s (sent_cmds (init_bytes H) (wired W H s))
  = wiring_events ++ reset_events ++ flat_map cmd_frame (init_bytes H).
Proof.
  apply emitted_app. rewrite sent_cmds_trace. cbn [wired trace].
  now rewrite <- !app_assoc.
Qed.

(** C4: a supported geometry (width 128, height 32 or 64) constructs, on a
    transport that takes the initialization writes, with a buffer of exactly
    [width * height / 8] bytes; any other geometry raises [ValueError] with
    the store untouched: no pin was configured or written, nothing went to
    the bus. *)
Theorem construction_geometry (W H : Z) (s : state) :
  (supported W H -> no_fault 26 s ->
   exists s', __init__ W H s = (Ok tt, s') /\
              Z.of_nat (length (buffer (self s'))) = W * H / 8 /\
              width (self s') = W /\ height (self s') = H /\
              pages (self s') = H / 8) /\
  (~ supported W H -> __init__ W H s = (Raise ValueError, s)).
Proof.
  split.
  - intros Hs Hf. eexists. split; [ apply (init_run W H s Hs Hf) | ].
    rewrite sent_cmds_self. cbn [wired self buffer width height pages].
    rewrite repeat_length.
    destruct Hs as [-> [-> | ->]]; repeat split.
  - apply init_unsupported.
Qed.

Lemma construction_geometry_witness :
  (exists s', __init__ 128 64 (power_up healthy) = (Ok tt, s') /\
              Z.of_nat (length (buffer (self s'))) = 128 * 64 / 8 /\
              width (self s') = 128 /\ height (self s') = 64 /\
              pages (self s') = 64 / 8) /\
  __init__ 128 32 (power_up healthy)
  = (Ok tt, sent_cmds (init_bytes 32) (wired 128 32 (power_up healthy))) /\
  __init__ 64 48 (power_up healthy) = (Raise ValueError, power_up healthy) /\
  __init__ 128 48 (power_up healthy) = (Raise ValueError, power_up healthy).
Proof.
  split; [ | split; [ | split ] ].
  - apply (construction_geometry 128 64 (power_up healthy)).
    + split; [ reflexivity | right; reflexivity ].
    + apply no_fault_healthy.
  - apply init_run.
    + split; [ reflexivity | left; reflexivity ].
    + apply no_fault_healthy.
  - apply (construction_geometry 64 48 (power_up healthy)).
    intros [HW _]. discriminate HW.
  - apply (construction_geometry 128 48 (power_up healthy)).
    intros [_ [HH | HH]]; discriminate HH.
Defined.

(** * The initialization sequence *)

Lemma init_bytes_spec H :
  init_bytes H
  = [0xFD; 0x12] ++ flat_map Wire.encode (Wire.init_middle H) ++ [0xAF].
Proof. reflexivity. Qed.

Lemma bus_frames_wiring c d r :
  bus_frames c d (wiring_events ++ reset_events ++ r) = bus_frames 1 0 r.
Proof. reflexivity. Qed.

(** C2: the command stream of a construction is the unlock pair 0xFD 0x12,
    then the encodings of steps 2 to 16 in their fixed order (with
    multiplex ratio [height - 1]), then display-on 0xAF; every byte of it
    goes out as a command frame of its own, and the bus carries nothing
    else. *)
Theorem init_sequence_order (W H : Z) (s : state) :
  supported W H -> no_fault 26 s ->
  exists s',
    __init__ W H s = (Ok tt, s') /\
    cmd_bytes (bus_frames (cs s) (dc s) (emitted s s'))
    = [0xFD; 0x12] ++ flat_map Wire.encode (Wire.init_middle H) ++ [0xAF] /\
    bus_frames (cs s) (dc s) (emitted s s')
    = map (fun b => Frame Command [b])
          ([0xFD; 0x12] ++ flat_map Wire.encode (Wire.init_middle H)
           ++ [0xAF]) /\
    Wire.init_middle H
    = [ Wire.DisplayOff; Wire.ClockDivide 0x80; Wire.MultiplexRatio (H - 1);
        Wire.DisplayOffset 0; Wire.StartLine 0; Wire.AddressingMode 0;
        Wire.SegmentRemap true; Wire.ComScanDirection true;
        Wire.ComPinsConfig 0x12; Wire.Contrast 0xCF; Wire.Precharge 0xF1;
        Wire.Vcomh 0x30; Wire.ResumeFromRam; Wire.NormalDisplay;
        Wire.DeactivateScroll ].
Proof.
  intros Hs Hf. eexists. split; [ apply (init_run W H s Hs Hf) | ].
  rewrite init_emitted, bus_frames_wiring, bus_frames_cmds, cmd_bytes_cmds.
  rewrite <- init_bytes_spec. repeat split.
Qed.

Lemma init_sequence_order_witness :
  exists s',
    __init__ 128 64 (power_up healthy) = (Ok tt, s') /\
    cmd_bytes (bus_frames 1 0 (emitted (power_up healthy) s'))
    = [0xFD; 0x12; 0xAE; 0xD5; 0x80; 0xA8; 0x3F; 0xD3; 0x00; 0x40; 0x20;
       0x00; 0xA1; 0xC8; 0xDA; 0x12; 0x81; 0xCF; 0xD9; 0xF1; 0xDB; 0x30;
       0xA4; 0xA6; 0x2E; 0xAF].
Proof.
  destruct (init_sequence_order 128 64 (power_up healthy)) as (s' & H1 & H2 & _).
  - split; [ reflexivity | right; reflexivity ].
  - apply no_fault_healthy.
  - exists s'. split; [ exact H1 | exact H2 ].
Defined.

(** * The reset line *)

Lemma write_cmd_bind_run {B} (b : Z) (k : M B) (s : state) :
  (write_cmd b ;; k) s =
  if is_byte b then
    if spi_faults s (spi_calls s)
    then (Raise OSError,
          framed 0 0 [PinSet CS 0; PinSet DC 0; SpiError [b]] s)
    else k (framed 1 0 (cmd_frame b) s)
  else (Raise ValueError,
        mkState (self s) 0 0 (rst s) (trace s ++ [PinSet CS 0; PinSet DC 0])
                (spi_faults s) (spi_calls s)).
Proof.
  unfold bind. rewrite write_cmd_run.
  destruct (is_byte b); [ destruct (spi_faults s (spi_calls s)) | ]; reflexivity.
Qed.

(** Whatever the transport does, [init_display] first selects the chip in
    command mode and attempts the unlock opcode. *)
Lemma init_display_starts (s : state) :
  exists r r',
    trace (snd (init_display s)) = trace s ++ [PinSet CS 0; PinSet DC 0] ++ r /\
    (r = SpiWrite [0xFD] :: r' \/ r = SpiError [0xFD] :: r').
Proof.
  unfold init_display. rewrite write_cmd_bind_run.
  change (is_byte _SET_COMMAND_LOCK) with true. cbn match.
  destruct (spi_faults s (spi_calls s)).
  - exists [SpiError [0xFD]], []. split; [ reflexivity | right; reflexivity ].
  - match goal with
    | |- context [snd (?k (framed 1 0 ?f ?s0))] =>
        assert (Hk : hal_only k) by hal_tac;
        destruct (Hk (framed 1 0 f s0)) as (_ & _ & evs & Hevs)
    end.
    exists (SpiWrite [0xFD] :: PinSet CS 1 :: evs), (PinSet CS 1 :: evs).
    split; [ | left; reflexivity ].
    rewrite Hevs. cbn [framed trace cmd_frame].
    rewrite <- app_assoc. reflexivity.
Qed.

(** C7: in a construction the reset line is driven high and held 1 ms,
    driven low and held 10 ms, driven high and held 10 ms, and only then is
    the first byte put on the bus; [time.sleep_ms n] is a delay of at least
    [n] ms.  This holds whatever the transport does afterwards. *)
Theorem reset_line_trace (W H : Z) (s : state) :
  supported W H ->
  exists r r',
    emitted s (snd (__init__ W H s))
    = wiring_events
      ++ [PinSet RST 1; SleepMs 1; PinSet RST 0; SleepMs 10;
          PinSet RST 1; SleepMs 10]
      ++ [PinSet CS 0; PinSet DC 0] ++ r /\
    (r = SpiWrite [0xFD] :: r' \/ r = SpiError [0xFD] :: r') /\
    rst_waveform None (emitted s (snd (__init__ W H s)))
    = [(1, 1); (0, 10); (1, 10)].
Proof.
  intros Hs. rewrite (init_supported W H s Hs).
  destruct (init_display_starts (wired W H s)) as (r & r' & Ht & Hr).
  exists r, r'.
  assert (He : emitted s (snd (init_display (wired W H s)))
               = wiring_events ++ reset_events ++ [PinSet CS 0; PinSet DC 0] ++ r).
  { apply emitted_app. rewrite Ht. cbn [wired trace].
    now rewrite <- !app_assoc. }
  rewrite He. split; [ reflexivity | split; [ exact Hr | ] ].
  destruct Hr as [-> | ->]; reflexivity.
Qed.

Lemma reset_line_trace_witness :
  rst_waveform None (emitted (power_up healthy)
                             (snd (__init__ 128 64 (power_up healthy))))
  = [(1, 1); (0, 10); (1, 10)] /\
  rst_waveform None (emitted (power_up dead)
                             (snd (__init__ 128 32 (power_up dead))))
  = [(1, 1); (0, 10); (1, 10)].
Proof.
  split.
  - destruct (reset_line_trace 128 64 (power_up healthy)) as (r & r' & _ & _ & E).
    + split; [ reflexivity | right; reflexivity ].
    + exact E.
  - destruct (reset_line_trace 128 32 (power_up dead)) as (r & r' & _ & _ & E).
    + split; [ reflexivity | left; reflexivity ].
    + exact E.
Defined.

(** * The constructed display and its invariant *)

Lemma supported_dec W H : {supported W H} + {~ supported W H}.
Proof.
  unfold supported.
  destruct (Z.eq_dec W 128); [ | right; tauto ].
  destruct (Z.eq_dec H 32); [ left; tauto | ].
  destruct (Z.eq_dec H 64); [ left; tauto | right; tauto ].
Qed.

Lemma init_ok_supported W H s0 s1 :
  __init__ W H s0 = (Ok tt, s1) -> supported W H.
Proof.
  intros Hi. destruct (supported_dec W H) as [Hs | Hn]; trivial.
  rewrite (init_unsupported W H s0 Hn) in Hi. discriminate Hi.
Qed.

Lemma init_ready W H s0 s1 : __init__ W H s0 = (Ok tt, s1) -> ready W H s1.
Proof.
  intros Hi. pose proof (init_ok_supported _ _ _ _ Hi) as Hs.
  rewrite (init_supported W H s0 Hs) in Hi.
  pose proof (proj1 (hal_only_init_display (wired W H s0))) as Hself.
  rewrite Hi in Hself. cbn [snd] in Hself.
  unfold ready. rewrite Hself. cbn [wired self width height pages buffer].
  rewrite repeat_length.
  destruct Hs as [HW HH]. repeat split; trivial.
  subst W; destruct HH; subst H; reflexivity.
Qed.

Lemma step_ready W H s s' : ready W H s -> step s s' -> ready W H s'.
Proof.
  intros Hr Hst. destruct Hst as [o s | s | s | cmd s | buf s | buf' s Hlen].
  - unfold ready. now rewrite (proj1 (hal_only_call o s)).
  - unfold ready. now rewrite (proj1 (hal_only_reset s)).
  - unfold ready. now rewrite (proj1 (hal_only_init_display s)).
  - unfold ready. now rewrite (proj1 (hal_only_write_cmd cmd s)).
  - unfold ready. now rewrite (proj1 (hal_only_write_data buf s)).
  - destruct Hr as (Hs & Hw & Hh & Hp & Hb).
    unfold ready, draw, set_self; cbn [self width height pages buffer].
    rewrite Hlen. repeat split; trivial; apply Hs.
Qed.

Lemma constructed_ready W H s : constructed W H s -> ready W H s.
Proof.
  intros (s0 & s1 & Hi & Hsteps).
  induction Hsteps as [s1 | s1 s2 s3 _ IH Hst].
  - eapply init_ready; eassumption.
  - eapply step_ready; [ apply IH, Hi | exact Hst ].
Qed.

(** * show *)

Lemma show_run (W H : Z) (s : state) :
  ready W H s -> no_fault 7 s ->
  show s
  = (Ok tt, framed 1 1 (data_frame (buffer (self s)))
              (sent_cmds [0x21; 0x00; W - 1; 0x22; 0x00; H / 8 - 1] s)).
Proof.
  intros (Hs & Hw & Hh & Hp & _) Hf.
  assert (HbW : is_byte (W - 1) = true)
    by (destruct Hs as [-> _]; reflexivity).
  assert (HbP : is_byte (H / 8 - 1) = true)
    by (destruct Hs as [_ [-> | ->]]; reflexivity).
  unfold show.
  do 2 send Hf.
  rewrite gets_then. cbn [framed self]. rewrite Hw.
  rewrite (write_cmd_then _ _ _ _ HbW Hf).
  apply (no_fault_framed _ 1 0 (cmd_frame (W - 1))) in Hf.
  do 2 send Hf.
  rewrite gets_then. cbn [framed self]. rewrite Hp.
  rewrite (write_cmd_then _ _ _ _ HbP Hf).
  apply (no_fault_framed _ 1 0 (cmd_frame (H / 8 - 1))) in Hf.
  rewrite gets_then. cbn [framed self].
  rewrite (write_data_sent _ _ 0 Hf).
  reflexivity.
Qed.

(** C1: on a display constructed with width [W] and [P = H / 8] pages,
    after any history of method calls (returned or raised) and drawing, a call
    of [show] on a transport that takes its seven writes puts on the bus
    exactly the six command bytes 0x21, 0x00, [W - 1], 0x22, 0x00, [P - 1],
    one framed command write each and in that order, and then the whole
    [W * P]-byte buffer as one data write. *)
Theorem show_emits (W H : Z) (s : state) :
  constructed W H s -> no_fault 7 s ->
  exists s',
    show s = (Ok tt, s') /\
    emitted s s'
    = flat_map cmd_frame [0x21; 0x00; W - 1; 0x22; 0x00; H / 8 - 1]
      ++ data_frame (buffer (self s)) /\
    bus_frames (cs s) (dc s) (emitted s s')
    = [ Frame Command [0x21]; Frame Command [0x00]; Frame Command [W - 1];
        Frame Command [0x22]; Frame Command [0x00];
        Frame Command [H / 8 - 1]; Frame Data (buffer (self s)) ] /\
    pages (self s) = H / 8 /\
    Z.of_nat (length (buffer (self s))) = W * (H / 8).
Proof.
  intros Hc Hf. pose proof (constructed_ready W H s Hc) as Hr.
  eexists. split; [ apply (show_run W H s Hr Hf) | ].
  erewrite emitted_app.
  2:{ cbn [framed trace]. rewrite sent_cmds_trace, <- app_assoc. reflexivity. }
  destruct Hr as (_ & _ & _ & Hp & Hb).
  repeat split; assumption.
Qed.

Lemma show_emits_witness :
  fst (call OpShow (sent_cmds (init_bytes 64) (wired 128 64 (power_up flaky))))
  = Raise OSError /\
  cs after_failed_show = 0 /\
  exists s',
    show after_failed_show = (Ok tt, s') /\
    bus_frames (cs after_failed_show) (dc after_failed_show)
               (emitted after_failed_show s')
    = [ Frame Command [0x21]; Frame Command [0x00]; Frame Command [0x7F];
        Frame Command [0x22]; Frame Command [0x00]; Frame Command [0x07];
        Frame Data (repeat 0xFF 1024) ].
Proof.
  split; [ reflexivity | split; [ reflexivity | ] ].
  assert (Hc : constructed 128 64 after_failed_show).
  { exists (power_up flaky),
           (sent_cmds (init_bytes 64) (wired 128 64 (power_up flaky))).
    split.
    - apply init_run.
      + split; [ reflexivity | right; reflexivity ].
      + intros k Hk. apply Nat.eqb_neq. cbn. lia.
    - eapply steps_cons; [ eapply steps_cons; [ apply steps_refl | ] | ].
      + apply (step_call OpShow).
      + apply step_draw. reflexivity. }
  assert (Hf : no_fault 7 after_failed_show).
  { intros k Hk. change (Nat.eqb (k + 27) 26 = false).
    apply Nat.eqb_neq. lia. }
  destruct (show_emits 128 64 after_failed_show Hc Hf) as (s' & H1 & _ & H3 & _).
  exists s'. split; [ exact H1 | exact H3 ].
Defined.

(** * The charge-pump opcode never appears *)

Lemma bus_frames_app c d e1 e2 :
  bus_frames c d (e1 ++ e2)
  = bus_frames c d e1 ++ bus_frames (level_after CS c e1) (level_after DC d e1) e2.
Proof.
  revert c d; induction e1 as [| e r IH]; intros c d; [ reflexivity | ].
  destruct e as [[] v | [] v | ms | buf | buf];
    cbn [app bus_frames level_after pin_eqb]; try apply IH.
  destruct (c =? 0); cbn [app]; now rewrite IH.
Qed.

Lemma cmd_bytes_app f1 f2 : cmd_bytes (f1 ++ f2) = cmd_bytes f1 ++ cmd_bytes f2.
Proof.
  induction f1 as [| [[] p] r IH]; cbn [app cmd_bytes]; trivial.
  now rewrite IH, app_assoc.
Qed.

Lemma opcodes_app p s1 s2 :
  Wire.opcodes p (s1 ++ s2)
  = Wire.opcodes p s1 ++ Wire.opcodes (pending_after p s1) s2.
Proof.
  revert p; induction s1 as [| b r IH]; intros p; [ reflexivity | ].
  destruct p; cbn [app Wire.opcodes pending_after]; now rewrite IH.
Qed.

Lemma pending_after_app p s1 s2 :
  pending_after p (s1 ++ s2) = pending_after (pending_after p s1) s2.
Proof.
  revert p; induction s1 as [| b r IH]; intros p; [ reflexivity | ].
  destruct p; cbn [app pending_after]; now rewrite IH.
Qed.

(** The command stream of a run of framed command writes that is followed,
    at most, by one data write. *)
Lemma cmd_bytes_of_op c d l tail :
  tail = [] \/ (exists buf, tail = data_frame buf) ->
  cmd_bytes (bus_frames c d (flat_map cmd_frame l ++ tail)) = l.
Proof.
  intros Ht. rewrite bus_frames_cmds_then, cmd_bytes_app, cmd_bytes_cmds.
  destruct Ht as [-> | [buf ->]].
  - cbn [bus_frames cmd_bytes]. apply app_nil_r.
  - change (bus_frames _ _ (data_frame buf)) with [Frame Data buf].
    cbn [cmd_bytes]. apply app_nil_r.
Qed.

(** ** Operations that returned normally *)

Lemma write_cmd_bind_ok_inv {B} (b : Z) (k : M B) s (r : B) s' :
  (write_cmd b ;; k) s = (Ok r, s') ->
  k (framed 1 0 (cmd_frame b) s) = (Ok r, s').
Proof.
  rewrite write_cmd_bind_run.
  destruct (is_byte b); [ destruct (spi_faults s (spi_calls s)) | ];
    intros Hk; try discriminate Hk; exact Hk.
Qed.

Lemma write_cmd_ok_inv (b : Z) s r s' :
  write_cmd b s = (Ok r, s') -> s' = framed 1 0 (cmd_frame b) s.
Proof.
  rewrite write_cmd_run.
  destruct (is_byte b); [ destruct (spi_faults s (spi_calls s)) | ];
    intros Hk; try discriminate Hk; now inversion Hk.
Qed.

Lemma write_data_ok_inv (buf : list Z) s r s' :
  write_data buf s = (Ok r, s') -> s' = framed 1 1 (data_frame buf) s.
Proof.
  rewrite write_data_run.
  destruct (spi_faults s (spi_calls s));
    intros Hk; try discriminate Hk; now inversion Hk.
Qed.

Ltac sent_in H := apply write_cmd_bind_ok_inv in H.
Ltac read_in H := rewrite gets_then in H; cbn [framed self] in H.

Lemma call_ok_trace (o : op) (s s' : state) :
  call o s = (Ok tt, s') ->
  trace s' = trace s ++ flat_map cmd_frame (op_cmds o s) ++ op_data o s.
Proof.
  destruct o as [| v | [] | |]; cbn [call op_cmds op_data]; intros Hc.
  - unfold show in Hc.
    do 2 sent_in Hc. read_in Hc. do 3 sent_in Hc. read_in Hc. sent_in Hc.
    read_in Hc. apply write_data_ok_inv in Hc. subst s'.
    cbn [framed trace flat_map]. rewrite <- !app_assoc. reflexivity.
  - unfold contrast in Hc. sent_in Hc. apply write_cmd_ok_inv in Hc. subst s'.
    cbn [framed trace flat_map]. rewrite <- !app_assoc. reflexivity.
  - apply write_cmd_ok_inv in Hc. subst s'. reflexivity.
  - apply write_cmd_ok_inv in Hc. subst s'. reflexivity.
  - apply write_cmd_ok_inv in Hc. subst s'. reflexivity.
  - apply write_cmd_ok_inv in Hc. subst s'. reflexivity.
Qed.

Lemma init_ok_trace (W H : Z) (s0 s1 : state) :
  __init__ W H s0 = (Ok tt, s1) ->
  trace s1
  = trace s0 ++ wiring_events ++ reset_events
    ++ flat_map cmd_frame (init_bytes H).
Proof.
  intros Hi. pose proof (init_ok_supported _ _ _ _ Hi) as Hs.
  rewrite (init_supported W H s0 Hs) in Hi. unfold init_display in Hi.
  do 6 sent_in Hi. read_in Hi. do 19 sent_in Hi.
  apply write_cmd_ok_inv in Hi. subst s1.
  cbn [framed trace wired self height flat_map init_bytes].
  rewrite <- !app_assoc. reflexivity.
Qed.

Lemma op_tail o s : op_data o s = [] \/ (exists buf, op_data o s = data_frame buf).
Proof. destruct o; cbn [op_data]; eauto. Qed.

Lemma op_cmds_boundary o s : pending_after 0 (op_cmds o s) = 0%nat.
Proof. destruct o as [| v | [] | |]; reflexivity. Qed.

Lemma op_cmds_opcodes o s : ~ In Wire.charge_pump (Wire.opcodes 0 (op_cmds o s)).
Proof.
  unfold Wire.charge_pump.
  destruct o as [| v | [] | |]; cbn; intuition discriminate.
Qed.

Lemma clean_op c0 d0 evs o s :
  clean c0 d0 evs ->
  clean c0 d0 (evs ++ flat_map cmd_frame (op_cmds o s) ++ op_data o s).
Proof.
  intros [Hp Hn]. unfold clean.
  rewrite bus_frames_app, cmd_bytes_app, (cmd_bytes_of_op _ _ _ _ (op_tail o s)).
  rewrite pending_after_app, opcodes_app, Hp. split.
  - apply op_cmds_boundary.
  - intros Hin. apply in_app_or in Hin. destruct Hin as [Hin | Hin].
    + exact (Hn Hin).
    + exact (op_cmds_opcodes o s Hin).
Qed.

Lemma clean_init c0 d0 H :
  clean c0 d0 (wiring_events ++ reset_events ++ flat_map cmd_frame (init_bytes H)).
Proof.
  unfold clean.
  rewrite bus_frames_wiring, bus_frames_cmds, cmd_bytes_cmds.
  split; [ reflexivity | ].
  unfold Wire.charge_pump. cbn. intuition discriminate.
Qed.

Lemma steps_ok_clean (W H : Z) (s0 s1 s : state) :
  __init__ W H s0 = (Ok tt, s1) -> steps_ok s1 s ->
  exists evs, trace s = trace s0 ++ evs /\ clean (cs s0) (dc s0) evs.
Proof.
  intros Hi Hsteps. induction Hsteps as [s1 | s1 s2 s3 _ IH Hst].
  - eexists. split; [ apply (init_ok_trace _ _ _ _ Hi) | apply clean_init ].
  - destruct (IH Hi) as (evs & Ht & Hc).
    destruct Hst as [o s2 s3 Hcall | buf' s2 Hlen].
    + exists (evs ++ flat_map cmd_frame (op_cmds o s2) ++ op_data o s2).
      split; [ | apply clean_op, Hc ].
      rewrite (call_ok_trace o s2 s3 Hcall), Ht. now rewrite <- app_assoc.
    + exists evs. split; [ exact Ht | exact Hc ].
Qed.

(** The whole stream of a session.  Take a construction and any later run
    of show, contrast, invert, poweroff and poweron calls (and drawing) in
    which every call returned: the controller, decoding from power-up all
    the command bytes it received, with the parameter counts of the opcode
    table, never decodes the opcode 0x8D. *)
Lemma returned_runs_decode_clean (W H : Z) (s0 s1 s : state) :
  __init__ W H s0 = (Ok tt, s1) -> steps_ok s1 s ->
  ~ In Wire.charge_pump
       (Wire.opcodes 0 (cmd_bytes (bus_frames (cs s0) (dc s0) (emitted s0 s)))) /\
  ~ In Wire.charge_pump
       (cmd_bytes (bus_frames (cs s0) (dc s0) (emitted s0 s1))).
Proof.
  intros Hi Hsteps. split.
  - destruct (steps_ok_clean W H s0 s1 s Hi Hsteps) as (evs & Ht & _ & Hn).
    now rewrite (emitted_app _ _ _ Ht).
  - rewrite (emitted_app _ _ _ (init_ok_trace _ _ _ _ Hi)).
    rewrite bus_frames_wiring, bus_frames_cmds, cmd_bytes_cmds.
    destruct (init_ok_supported _ _ _ _ Hi) as [_ [-> | ->]];
      unfold Wire.charge_pump; cbn; intuition discriminate.
Qed.

Lemma step_ok_returned (o : op) (s : state) :
  fst (call o s) = Ok tt -> step_ok s (snd (call o s)).
Proof.
  intros Hr. apply (step_ok_call o).
  destruct (call o s) as [r s']. cbn in Hr |- *. now rewrite Hr.
Qed.

Example returned_runs_decode_clean_example :
  ~ In Wire.charge_pump
       (Wire.opcodes 0 (cmd_bytes (bus_frames 1 0
                                     (emitted (power_up healthy) session)))).
Proof.
  refine (proj1 (returned_runs_decode_clean 128 64 (power_up healthy) session_init
                   session _ _)).
  - apply init_run.
    + split; [ reflexivity | right; reflexivity ].
    + apply no_fault_healthy.
  - apply (steps_ok_cons session_init session_drawn session).
    + apply (steps_ok_cons session_init session_inverted session_drawn).
      * apply (steps_ok_cons session_init session_contrast session_inverted).
        -- apply (steps_ok_cons session_init session_init session_contrast).
           ++ apply steps_ok_refl.
           ++ apply (step_ok_returned (OpContrast 141)). vm_compute. reflexivity.
        -- apply (step_ok_returned (OpInvert true)). vm_compute. reflexivity.
      * apply (step_ok_draw (repeat 0xFF 512 ++ repeat 0x00 512)).
        vm_compute. reflexivity.
    + apply (step_ok_returned OpShow). vm_compute. reflexivity.
Defined.

(** The controller decodes the initialization stream as 17 commands. *)
Example init_is_17_commands (H : Z) :
  Wire.opcodes 0 (init_bytes H)
  = [0xFD; 0xAE; 0xD5; 0xA8; 0xD3; 0x40; 0x20; 0xA1; 0xC8; 0xDA; 0x81; 0xD9;
     0xDB; 0xA4; 0xA6; 0x2E; 0xAF].
Proof. reflexivity. Qed.

(** The byte value 0x8D itself can travel in command mode, as the level
    parameter of a contrast command; the controller does not decode it as an
    opcode. *)
Example contrast_141_is_a_parameter :
  cmd_bytes (bus_frames 1 0 (emitted (power_up healthy)
                               (snd (contrast 141 (power_up healthy)))))
  = [0x81; 0x8D] /\
  Wire.opcodes 0 [0x81; 0x8D] = [0x81].
Proof. split; reflexivity. Qed.

(** * Behaviour on an arbitrary transport *)

Lemma bind_assoc {A B C} (m : M A) (f : A -> M B) (g : B -> M C) s :
  bind (bind m f) g s = bind m (fun x => bind (f x) g) s.
Proof. unfold bind. destruct (m s) as [[a | e] s1]; reflexivity. Qed.

Lemma write_cmd_bind_ext {B} (b : Z) (k1 k2 : M B) (s : state) :
  k1 (framed 1 0 (cmd_frame b) s) = k2 (framed 1 0 (cmd_frame b) s) ->
  (write_cmd b ;; k1) s = (write_cmd b ;; k2) s.
Proof.
  intros Hk. rewrite !write_cmd_bind_run, Hk. reflexivity.
Qed.

Lemma write_cmd_as_bind (b : Z) (s : state) :
  write_cmd b s = (write_cmd b ;; ret tt) s.
Proof.
  rewrite write_cmd_bind_run, write_cmd_run.
  destruct (is_byte b); [ destruct (spi_faults s (spi_calls s)) | ]; reflexivity.
Qed.

Lemma taken_le faults from n : (taken faults from n <= n)%nat.
Proof.
  revert from; induction n as [| n IH]; intros from; cbn [taken]; [ lia | ].
  destruct (faults from); [ lia | ]. specialize (IH (S from)). lia.
Qed.

Lemma taken_all faults from n :
  taken faults from n = n <->
  (forall k, (k < n)%nat -> faults (k + from)%nat = false).
Proof.
  revert from; induction n as [| n IH]; intros from; cbn [taken].
  - split; [ intros _ k Hk; lia | reflexivity ].
  - destruct (faults from) eqn:E.
    + split; [ discriminate | ]. intros H. specialize (H 0%nat). cbn in H.
      rewrite E in H. discriminate H. lia.
    + split.
      * intros H k Hk. injection H as H. destruct k as [| k]; [ exact E | ].
        replace (S k + from)%nat with (k + S from)%nat by lia.
        apply (proj1 (IH (S from)) H). lia.
      * intros H. f_equal. apply IH. intros k Hk.
        replace (k + S from)%nat with (S k + from)%nat by lia.
        apply H. lia.
Qed.

(** A run of command writes on any transport: it goes through when none of
    its writes raises; otherwise it stops at the first write that raises. *)
Lemma write_cmds_run (l : list Z) (s : state) :
  forallb is_byte l = true ->
  write_cmds l s =
  let k := taken (spi_faults s) (spi_calls s) (length l) in
  if (k =? length l)%nat then (Ok tt, sent_cmds l s)
  else (Raise OSError, failed_cmds k l s).
Proof.
  revert s; induction l as [| b r IH]; intros s Hb; [ reflexivity | ].
  cbn [forallb] in Hb. apply andb_true_iff in Hb. destruct Hb as [Hb Hr].
  cbn [write_cmds length taken]. rewrite write_cmd_bind_run, Hb.
  destruct (spi_faults s (spi_calls s)); [ reflexivity | ].
  rewrite (IH _ Hr). cbn [framed spi_faults spi_calls].
  cbn zeta. cbn [Nat.eqb].
  destruct (taken (spi_faults s) (S (spi_calls s)) (length r) =? length r)%nat;
    reflexivity.
Qed.

Lemma bind_ret_tt (m : M unit) (s : state) : (m ;; ret tt) s = m s.
Proof. unfold bind. destruct (m s) as [[[] | e] s1]; reflexivity. Qed.

Ltac ext_step :=
  lazymatch goal with
  | |- _ = bind (bind (write_cmd ?b) ?f) ?g ?s =>
      rewrite (bind_assoc (write_cmd b) f g s); cbn beta;
      apply write_cmd_bind_ext
  | |- _ = bind (write_cmd ?b) _ ?s => apply write_cmd_bind_ext
  end.

Ltac read_self := rewrite gets_then; cbn [framed self].

(** Every operation is a run of command writes, followed for [show] by one
    data write. *)
Lemma call_as_cmds (o : op) (s : state) :
  call o s = (write_cmds (op_cmds o s) ;; op_tail_write o s) s.
Proof.
  destruct o as [| v | [] | |]; cbn [call op_cmds write_cmds op_tail_write].
  - unfold show. do 2 ext_step. read_self. do 3 ext_step. read_self. ext_step.
    read_self. reflexivity.
  - unfold contrast. ext_step. rewrite bind_ret_tt. apply write_cmd_as_bind.
  - unfold invert. rewrite bind_ret_tt. apply write_cmd_as_bind.
  - unfold invert. rewrite bind_ret_tt. apply write_cmd_as_bind.
  - unfold poweroff. rewrite bind_ret_tt. apply write_cmd_as_bind.
  - unfold poweron. rewrite bind_ret_tt. apply write_cmd_as_bind.
Qed.

Lemma init_display_as_cmds (s : state) :
  init_display s = write_cmds (init_bytes (height (self s))) s.
Proof.
  unfold init_display, init_bytes. cbn [write_cmds].
  do 6 ext_step. read_self. do 19 ext_step. apply write_cmd_as_bind.
Qed.

Lemma sent_cmds_calls l s :
  spi_calls (sent_cmds l s) = (spi_calls s + length l)%nat.
Proof.
  revert s; induction l as [| b r IH]; intros s; cbn [sent_cmds length].
  - lia.
  - rewrite IH. cbn [framed spi_calls]. lia.
Qed.

Lemma sent_cmds_faults l s : spi_faults (sent_cmds l s) = spi_faults s.
Proof.
  revert s; induction l as [| b r IH]; intros s; cbn [sent_cmds]; trivial.
  now rewrite IH.
Qed.

Lemma sent_cmds_rst l s : rst (sent_cmds l s) = rst s.
Proof.
  revert s; induction l as [| b r IH]; intros s; cbn [sent_cmds]; trivial.
  now rewrite IH.
Qed.

Lemma sent_cmds_lines b l s :
  cs (sent_cmds (b :: l) s) = 1 /\ dc (sent_cmds (b :: l) s) = 0.
Proof.
  revert b s; induction l as [| b' r IH]; intros b s.
  - split; reflexivity.
  - apply (IH b' (framed 1 0 (cmd_frame b) s)).
Qed.

Lemma bus_frames_cmds_failed c d l b :
  bus_frames c d (flat_map cmd_frame l ++ [PinSet CS 0; PinSet DC 0; SpiError [b]])
  = map (fun b => Frame Command [b]) l.
Proof.
  rewrite bus_frames_cmds_then. cbn [bus_frames]. apply app_nil_r.
Qed.

Lemma firstn_length_all {A} (l : list A) : firstn (length l) l = l.
Proof. induction l as [| a r IH]; cbn; [ | rewrite IH ]; reflexivity. Qed.

(** What a run of command writes leaves behind, on any transport. *)
Lemma write_cmds_outcome (l : list Z) (s : state) :
  forallb is_byte l = true ->
  let k := taken (spi_faults s) (spi_calls s) (length l) in
  let s' := snd (write_cmds l s) in
  let evs := flat_map cmd_frame (firstn k l)
             ++ (if (k =? length l)%nat then []
                 else [PinSet CS 0; PinSet DC 0; SpiError [nth k l 0]]) in
  fst (write_cmds l s)
  = (if (k =? length l)%nat then Ok tt else Raise OSError) /\
  trace s' = trace s ++ evs /\
  (forall c d, bus_frames c d evs
               = map (fun b => Frame Command [b]) (firstn k l)) /\
  spi_calls s' = (spi_calls s + Nat.min (S k) (length l))%nat /\
  spi_faults s' = spi_faults s /\ self s' = self s /\ rst s' = rst s /\
  cs s' = (if (k =? length l)%nat
           then match l with [] => cs s | _ => 1 end else 0).
Proof.
  intros Hb k s' evs. subst s' evs. rewrite (write_cmds_run l s Hb). cbv zeta.
  pose proof (taken_le (spi_faults s) (spi_calls s) (length l)) as Hle.
  fold k in Hle |- *. clearbody k.
  destruct (Nat.eqb_spec k (length l)) as [E | E]; cbn [fst snd].
  - rewrite sent_cmds_trace, sent_cmds_calls, sent_cmds_faults,
      sent_cmds_self, sent_cmds_rst, app_nil_r, E, firstn_length_all.
    repeat split.
    + intros c d. apply bus_frames_cmds.
    + lia.
    + destruct l as [| b r]; [ reflexivity | apply sent_cmds_lines ].
  - unfold failed_cmds. cbn [framed trace spi_calls spi_faults self rst cs].
    rewrite sent_cmds_trace, sent_cmds_calls, sent_cmds_faults,
      sent_cmds_self, sent_cmds_rst, <- app_assoc, length_firstn.
    repeat split.
    + intros c d. apply bus_frames_cmds_failed.
    + lia.
Qed.

Lemma taken_snoc faults from n :
  taken faults from (S n)
  = if (taken faults from n =? n)%nat
    then (if faults (from + n)%nat then n else S n)
    else taken faults from n.
Proof.
  revert from; induction n as [| n IH]; intros from.
  - cbn. rewrite Nat.add_0_r. reflexivity.
  - change (taken faults from (S (S n)))
      with (if faults from then 0%nat else S (taken faults (S from) (S n))).
    rewrite IH. cbn [taken].
    destruct (faults from); [ reflexivity | ].
    replace (from + S n)%nat with (S from + n)%nat by lia.
    cbn [Nat.eqb].
    destruct (taken faults (S from) n =? n)%nat; [ | reflexivity ].
    destruct (faults (S from + n)%nat); reflexivity.
Qed.

Lemma op_cmds_bytes (W H : Z) (o : op) (s : state) :
  ready W H s -> forallb is_byte (op_cmds o s) = true.
Proof.
  intros (Hs & Hw & _ & Hp & _).
  destruct o as [| v | [] | |]; cbn [op_cmds forallb]; try reflexivity.
  - rewrite Hw, Hp. destruct Hs as [-> [-> | ->]]; reflexivity.
  - change (is_byte 0x81) with true. cbn [andb].
    rewrite andb_true_r. unfold is_byte.
    apply andb_true_intro; split; apply Z.leb_le; lia.
Qed.

Lemma op_writes_length (o : op) (s : state) :
  op_writes o
  = (length (op_cmds o s) + match o with OpShow => 1 | _ => 0 end)%nat.
Proof. destruct o; reflexivity. Qed.

(** [show]: six command writes, then the data write. *)
Lemma show_outcome (W H : Z) (s : state) :
  ready W H s ->
  let k := taken (spi_faults s) (spi_calls s) (op_writes OpShow) in
  let s' := snd (call OpShow s) in
  fst (call OpShow s)
  = (if (k =? op_writes OpShow)%nat then Ok tt else Raise OSError) /\
  bus_frames (cs s) (dc s) (emitted s s') = firstn k (op_frames OpShow s) /\
  cs s' = (if (k =? op_writes OpShow)%nat then 1 else 0) /\
  spi_calls s' = (spi_calls s + Nat.min (S k) (op_writes OpShow))%nat /\
  self s' = self s /\ rst s' = rst s.
Proof.
  intros Hr k s'. subst k s'.
  pose proof (op_cmds_bytes W H OpShow s Hr) as Hb.
  destruct (write_cmds_outcome (op_cmds OpShow s) s Hb)
    as (Hfst & Htr & Hfr & Hcalls & Hfaults & Hself & Hrst & Hcs).
  rewrite call_as_cmds.
  cbn [op_writes op_tail_write] in *.
  change (op_frames OpShow s)
    with (map (fun b => Frame Command [b]) (op_cmds OpShow s)
          ++ [Frame Data (buffer (self s))]).
  set (l := op_cmds OpShow s) in *.
  assert (Hl : length l = 6%nat) by reflexivity.
  rewrite Hl in Hfst, Htr, Hfr, Hcalls, Hcs.
  rewrite taken_snoc.
  pose proof (taken_le (spi_faults s) (spi_calls s) 6) as Hle.
  set (k6 := taken (spi_faults s) (spi_calls s) 6) in *. clearbody k6.
  assert (F6 : firstn 6 (map (fun b => Frame Command [b]) l
                         ++ [Frame Data (buffer (self s))])
               = map (fun b => Frame Command [b]) l).
  { rewrite firstn_app, length_map, Hl. change (6 - 6)%nat with 0%nat.
    rewrite firstn_O, app_nil_r. apply firstn_all2.
    rewrite length_map, Hl. lia. }
  assert (F7 : firstn 7 (map (fun b => Frame Command [b]) l
                         ++ [Frame Data (buffer (self s))])
               = map (fun b => Frame Command [b]) l
                 ++ [Frame Data (buffer (self s))]).
  { apply firstn_all2. rewrite length_app, length_map, Hl. cbn. lia. }
  unfold bind.
  destruct (write_cmds l s) as [[[] | e] s1]; cbn [fst snd] in *.
  + destruct (Nat.eqb_spec k6 6) as [E | E]; [ subst k6 | discriminate Hfst ].
    rewrite (firstn_all2 l (n := 6)) in Htr, Hfr by lia.
    rewrite app_nil_r in Htr, Hfr.
    change (Nat.min 7 6) with 6%nat in Hcalls.
    rewrite write_data_run, Hfaults, Hcalls.
    destruct (spi_faults s (spi_calls s + 6)%nat); cbn [fst snd Nat.eqb].
    * erewrite emitted_app.
      2:{ cbn [framed trace]. rewrite Htr, <- app_assoc. reflexivity. }
      rewrite bus_frames_app, Hfr, F6. cbn [bus_frames]. rewrite app_nil_r.
      cbn [framed cs spi_calls self rst]. rewrite Hcalls.
      repeat split; trivial.
    * erewrite emitted_app.
      2:{ cbn [framed trace]. rewrite Htr, <- app_assoc. reflexivity. }
      rewrite bus_frames_app, Hfr, F7.
      cbn [framed cs spi_calls self rst]. rewrite Hcalls.
      repeat split; trivial.
  + destruct (Nat.eqb_spec k6 6) as [E | E]; [ discriminate Hfst | ].
    injection Hfst as ->.
    destruct (Nat.eqb_spec k6 7) as [E7 | _]; [ lia | ].
    rewrite (emitted_app _ _ _ Htr), Hfr.
    rewrite firstn_app, length_map, Hl.
    replace (k6 - 6)%nat with 0%nat by lia.
    cbn [firstn]. rewrite app_nil_r, firstn_map.
    repeat split; trivial. lia.
Qed.

(** The other operations: command writes only. *)
Lemma command_outcome (W H : Z) (o : op) (s : state) :
  o <> OpShow ->
  ready W H s ->
  let k := taken (spi_faults s) (spi_calls s) (op_writes o) in
  let s' := snd (call o s) in
  fst (call o s) = (if (k =? op_writes o)%nat then Ok tt else Raise OSError) /\
  bus_frames (cs s) (dc s) (emitted s s') = firstn k (op_frames o s) /\
  cs s' = (if (k =? op_writes o)%nat then 1 else 0) /\
  spi_calls s' = (spi_calls s + Nat.min (S k) (op_writes o))%nat /\
  self s' = self s /\ rst s' = rst s.
Proof.
  intros Hns Hr k s'. subst k s'.
  pose proof (op_cmds_bytes W H o s Hr) as Hb.
  destruct (write_cmds_outcome (op_cmds o s) s Hb)
    as (Hfst & Htr & Hfr & Hcalls & Hfaults & Hself & Hrst & Hcs).
  rewrite call_as_cmds.
  assert (Ht : op_tail_write o s = ret tt)
    by (destruct o; try reflexivity; contradiction Hns; reflexivity).
  assert (Hw : op_writes o = length (op_cmds o s))
    by (destruct o; try reflexivity; contradiction Hns; reflexivity).
  assert (Hf : op_frames o s = map (fun b => Frame Command [b]) (op_cmds o s))
    by (destruct o; cbn [op_frames]; try apply app_nil_r;
        contradiction Hns; reflexivity).
  assert (Hne : match op_cmds o s with [] => cs s | _ => 1 end = 1)
    by (destruct o as [| v | [] | |]; reflexivity).
  rewrite Ht, bind_ret_tt, Hw, Hf, (emitted_app _ _ _ Htr), Hfr, firstn_map.
  rewrite Hne in Hcs.
  repeat split; trivial.
Qed.

(** X1: an operation on a constructed display, on any transport.  With [k]
    the number of its transport calls that go through before one raises:
    the operation returns exactly when all of them do and raises [OSError]
    otherwise (never [ValueError]); the controller receives exactly the
    first [k] of the operation's frames; chip-select ends high exactly when
    the operation returned; the driver object and the reset line are left
    alone. *)
Theorem call_any_transport (W H : Z) (o : op) (s : state) :
  ready W H s ->
  let k := taken (spi_faults s) (spi_calls s) (op_writes o) in
  let s' := snd (call o s) in
  fst (call o s) = (if (k =? op_writes o)%nat then Ok tt else Raise OSError) /\
  bus_frames (cs s) (dc s) (emitted s s') = firstn k (op_frames o s) /\
  cs s' = (if (k =? op_writes o)%nat then 1 else 0) /\
  spi_calls s' = (spi_calls s + Nat.min (S k) (op_writes o))%nat /\
  self s' = self s /\ rst s' = rst s.
Proof.
  intros Hr.
  assert (Hshow : o = OpShow \/ o <> OpShow)
    by (destruct o; auto; right; discriminate).
  destruct Hshow as [-> | Hns].
  - apply (show_outcome W H s Hr).
  - apply (command_outcome W H o s Hns Hr).
Qed.

Lemma ready_init_run (W H : Z) (s : state) :
  supported W H -> no_fault 26 s ->
  ready W H (sent_cmds (init_bytes H) (wired W H s)).
Proof.
  intros Hs Hf. apply (init_ready W H s). apply init_run; assumption.
Qed.

Lemma call_any_transport_witness :
  let s := sent_cmds (init_bytes 64)
                     (wired 128 64 (power_up (fun n => Nat.eqb n 30))) in
  fst (call OpShow s) = Raise OSError /\
  bus_frames (cs s) (dc s) (emitted s (snd (call OpShow s)))
  = [ Frame Command [0x21]; Frame Command [0x00]; Frame Command [0x7F];
      Frame Command [0x22] ] /\
  cs (snd (call OpShow s)) = 0.
Proof.
  intros s.
  assert (Hr : ready 128 64 s).
  { apply ready_init_run.
    - split; [ reflexivity | right; reflexivity ].
    - intros k Hk. apply Nat.eqb_neq. cbn. lia. }
  destruct (call_any_transport 128 64 OpShow s Hr) as (H1 & H2 & H3 & _).
  split; [ exact H1 | split; [ exact H2 | exact H3 ] ].
Defined.

Lemma In_firstn {A} (x : A) k l : In x (firstn k l) -> In x l.
Proof.
  intros Hin. rewrite <- (firstn_skipn k l). apply in_or_app. now left.
Qed.

Lemma In_firstn_mono {A} (x : A) k n l :
  (k <= n)%nat -> In x (firstn k l) -> In x (firstn n l).
Proof.
  intros Hkn Hin.
  replace k with (Nat.min k n) in Hin by lia.
  rewrite <- firstn_firstn in Hin. eapply In_firstn, Hin.
Qed.

(** X2: [show] sends pixel data exactly when it returns.  On a constructed
    display and any transport, a data frame reaches the controller if and
    only if [show] returned normally, and then it is the one frame holding
    the whole buffer; a [show] that raised sent command bytes only. *)
Theorem show_data_iff_returned (W H : Z) (s : state) :
  ready W H s ->
  let frames := bus_frames (cs s) (dc s) (emitted s (snd (show s))) in
  ((exists buf, In (Frame Data buf) frames) <-> fst (show s) = Ok tt) /\
  (forall buf, In (Frame Data buf) frames -> buf = buffer (self s)).
Proof.
  intros Hr frames. subst frames.
  destruct (show_outcome W H s Hr) as (Hfst & Hfr & _).
  cbn [call op_writes] in Hfst, Hfr. rewrite Hfst, Hfr.
  pose proof (taken_le (spi_faults s) (spi_calls s) 7) as Hle.
  set (k := taken (spi_faults s) (spi_calls s) 7) in *. clearbody k.
  assert (Hdata : forall buf, In (Frame Data buf) (op_frames OpShow s) ->
                              buf = buffer (self s)).
  { intros buf Hin. unfold op_frames in Hin. apply in_app_or in Hin.
    destruct Hin as [Hin | [Hin | []]].
    - apply in_map_iff in Hin. destruct Hin as (b & Hb & _). discriminate Hb.
    - now inversion Hin. }
  split; [ split | ].
  - intros [buf Hin]. destruct (Nat.eqb_spec k 7) as [_ | Hk]; trivial.
    exfalso. apply (In_firstn_mono _ k 6) in Hin; [ | lia ].
    unfold op_frames in Hin.
    rewrite firstn_app, length_map in Hin.
    change (6 - length (op_cmds OpShow s))%nat with 0%nat in Hin.
    rewrite firstn_O, app_nil_r in Hin. apply In_firstn in Hin.
    apply in_map_iff in Hin. destruct Hin as (b & Hb & _). discriminate Hb.
  - destruct (Nat.eqb_spec k 7) as [E | Hk]; [ intros _ | discriminate ].
    exists (buffer (self s)). rewrite E. cbn. tauto.
  - intros buf Hin. apply Hdata. eapply In_firstn, Hin.
Qed.

Lemma show_data_iff_returned_witness :
  let s := sent_cmds (init_bytes 64)
                     (wired 128 64 (power_up (fun n => Nat.eqb n 32))) in
  fst (show s) = Raise OSError /\
  ~ (exists buf, In (Frame Data buf)
                    (bus_frames (cs s) (dc s) (emitted s (snd (show s))))).
Proof.
  intros s.
  assert (Hr : ready 128 64 s).
  { apply ready_init_run.
    - split; [ reflexivity | right; reflexivity ].
    - intros k Hk. apply Nat.eqb_neq. cbn. lia. }
  assert (Hraise : fst (show s) = Raise OSError) by reflexivity.
  split; [ exact Hraise | ].
  intros Hex.
  apply (proj1 (show_data_iff_returned 128 64 s Hr)) in Hex.
  rewrite Hraise in Hex. discriminate Hex.
Defined.

Lemma init_bytes_are_bytes (W H : Z) :
  supported W H -> forallb is_byte (init_bytes H) = true.
Proof. intros [_ [-> | ->]]; reflexivity. Qed.

Lemma display_on_is_last (W H : Z) (k : nat) :
  supported W H ->
  (In 0xAF (firstn k (init_bytes H)) <-> (26 <= k)%nat).
Proof.
  intros Hs. split.
  - intros Hin. destruct (Nat.le_gt_cases 26 k) as [Hk | Hk]; trivial.
    exfalso. apply (In_firstn_mono _ k 25) in Hin; [ | lia ].
    destruct Hs as [_ [-> | ->]]; cbn in Hin; intuition discriminate.
  - intros Hk. rewrite firstn_all2 by (cbn; lia).
    cbn. intuition.
Qed.

(** X3: construction on any transport.  For a supported geometry, with [k]
    the number of initialization writes that go through before one raises:
    the constructor returns exactly when all 26 do and raises [OSError]
    otherwise; the controller receives exactly the first [k] bytes of the
    initialization sequence, each as its own command frame; display-on
    (0xAF) is among them only if the constructor returned; the reset line
    ends high, and chip-select ends high only if the constructor
    returned. *)
Theorem init_any_transport (W H : Z) (s : state) :
  supported W H ->
  let k := taken (spi_faults s) (spi_calls s) 26 in
  let s' := snd (__init__ W H s) in
  fst (__init__ W H s) = (if (k =? 26)%nat then Ok tt else Raise OSError) /\
  bus_frames (cs s) (dc s) (emitted s s')
  = map (fun b => Frame Command [b]) (firstn k (init_bytes H)) /\
  (In 0xAF (cmd_bytes (bus_frames (cs s) (dc s) (emitted s s')))
   <-> fst (__init__ W H s) = Ok tt) /\
  cs s' = (if (k =? 26)%nat then 1 else 0) /\
  rst s' = 1.
Proof.
  intros Hs k s'. subst k s'.
  rewrite (init_supported W H s Hs), init_display_as_cmds.
  cbn [wired self height].
  destruct (write_cmds_outcome (init_bytes H) (wired W H s)
              (init_bytes_are_bytes W H Hs))
    as (Hfst & Htr & Hfr & _ & _ & _ & Hrst & Hcs).
  change (length (init_bytes H)) with 26%nat in *.
  cbn [wired spi_faults spi_calls self height trace rst cs] in *.
  pose proof (taken_le (spi_faults s) (spi_calls s) 26) as Hle.
  set (k := taken (spi_faults s) (spi_calls s) 26) in *. clearbody k.
  erewrite emitted_app.
  2:{ rewrite Htr, <- !app_assoc. reflexivity. }
  rewrite bus_frames_wiring, Hfr, cmd_bytes_cmds, Hfst, Hrst, Hcs.
  rewrite (display_on_is_last W H k Hs).
  repeat split.
  - intros Hk. replace k with 26%nat by lia. reflexivity.
  - destruct (Nat.eqb_spec k 26) as [E | Hk]; [ lia | discriminate ].
Qed.

Lemma init_any_transport_witness :
  let s := power_up (fun n => Nat.eqb n 3) in
  fst (__init__ 128 64 s) = Raise OSError /\
  bus_frames (cs s) (dc s) (emitted s (snd (__init__ 128 64 s)))
  = [Frame Command [0xFD]; Frame Command [0x12]; Frame Command [0xAE]] /\
  cs (snd (__init__ 128 64 s)) = 0.
Proof.
  intros s.
  destruct (init_any_transport 128 64 s) as (H1 & H2 & _ & H4 & _).
  - split; [ reflexivity | right; reflexivity ].
  - split; [ exact H1 | split; [ exact H2 | exact H4 ] ].
Defined.

(** * Re-initialisation *)

Lemma reset_run (s : state) :
  reset s
  = (Ok tt, mkState (self s) (cs s) (dc s) 1 (trace s ++ reset_events)
                    (spi_faults s) (spi_calls s)).
Proof.
  unfold reset, reset_events. cbv -[app].
  rewrite <- !app_assoc. reflexivity.
Qed.

Lemma bus_frames_reset c d r :
  bus_frames c d (reset_events ++ r) = bus_frames c d r.
Proof. reflexivity. Qed.

Lemma rst_waveform_reset_cmds b l :
  rst_waveform None (reset_events ++ flat_map cmd_frame (b :: l))
  = [(1, 1); (0, 10); (1, 10)].
Proof. reflexivity. Qed.

(** X4: bringing the display back to a known state.  On a constructed
    display left in any condition (whatever the line levels, for instance
    chip-select low after a failed transfer), [reset] followed by
    [init_display] on a transport that takes the 26 writes returns, sends
    the reset pulse and then the full initialization sequence, and leaves
    the lines idle (chip-select 1, data/command 0, reset 1) with the driver
    object and its buffer untouched. *)
Theorem reinitialise (W H : Z) (s : state) :
  ready W H s -> no_fault 26 s ->
  exists s',
    (reset ;; init_display) s = (Ok tt, s') /\
    emitted s s' = reset_events ++ flat_map cmd_frame (init_bytes H) /\
    bus_frames (cs s) (dc s) (emitted s s')
    = map (fun b => Frame Command [b]) (init_bytes H) /\
    rst_waveform None (emitted s s') = [(1, 1); (0, 10); (1, 10)] /\
    cs s' = 1 /\ dc s' = 0 /\ rst s' = 1 /\ self s' = self s.
Proof.
  intros (Hs & _ & Hh & _) Hf.
  unfold bind. rewrite reset_run.
  set (s1 := mkState (self s) (cs s) (dc s) 1 (trace s ++ reset_events)
                     (spi_faults s) (spi_calls s)).
  assert (Hrun : init_display s1 = (Ok tt, sent_cmds (init_bytes H) s1)).
  { rewrite <- Hh. apply (init_display_run s1).
    - cbn. rewrite Hh. apply (supported_byte W H Hs).
    - exact Hf. }
  rewrite Hrun. eexists. split; [ reflexivity | ].
  erewrite emitted_app.
  2:{ rewrite sent_cmds_trace. cbn [s1 trace]. rewrite <- app_assoc.
      reflexivity. }
  rewrite sent_cmds_rst, sent_cmds_self.
  destruct (sent_cmds_lines 0xFD (tl (init_bytes H)) s1) as [Hcs Hdc].
  change (0xFD :: tl (init_bytes H)) with (init_bytes H) in Hcs, Hdc.
  rewrite Hcs, Hdc.
  rewrite bus_frames_reset, bus_frames_cmds.
  split; [ reflexivity | split; [ reflexivity | ] ].
  split; [ apply (rst_waveform_reset_cmds 0xFD (tl (init_bytes H))) | ].
  repeat split.
Qed.

Lemma after_failed_show_ready : ready 128 64 after_failed_show.
Proof.
  apply constructed_ready.
  exists (power_up flaky),
         (sent_cmds (init_bytes 64) (wired 128 64 (power_up flaky))).
  split.
  - apply init_run.
    + split; [ reflexivity | right; reflexivity ].
    + intros k Hk. apply Nat.eqb_neq. cbn. lia.
  - eapply steps_cons; [ eapply steps_cons; [ apply steps_refl | ] | ].
    + apply (step_call OpShow).
    + apply step_draw. reflexivity.
Qed.

Lemma after_failed_show_no_fault n : no_fault n after_failed_show.
Proof.
  intros k Hk. change (Nat.eqb (k + 27) 26 = false).
  apply Nat.eqb_neq. lia.
Qed.

Lemma reinitialise_witness :
  cs after_failed_show = 0 /\
  exists s',
    (reset ;; init_display) after_failed_show = (Ok tt, s') /\
    cs s' = 1 /\ dc s' = 0 /\ rst s' = 1 /\
    buffer (self s') = repeat 0xFF 1024.
Proof.
  split; [ reflexivity | ].
  destruct (reinitialise 128 64 after_failed_show after_failed_show_ready
              (after_failed_show_no_fault 26))
    as (s' & Hrun & _ & _ & _ & Hcs & Hdc & Hrst & Hself).
  exists s'. rewrite Hself.
  split; [ exact Hrun | ]. repeat split; assumption.
Defined.

(** * What the operations never touch *)

Lemma bus_only_ret {A} (a : A) : bus_only (ret a).
Proof. intros s; cbn; split; trivial; exists []; now rewrite app_nil_r. Qed.

Lemma bus_only_raise {A} (e : exn) : bus_only (@raise A e).
Proof. intros s; cbn; split; trivial; exists []; now rewrite app_nil_r. Qed.

Lemma bus_only_gets {A} (f : state -> A) : bus_only (gets f).
Proof. intros s; cbn; split; trivial; exists []; now rewrite app_nil_r. Qed.

Lemma bus_only_bind {A B} (m : M A) (k : A -> M B) :
  bus_only m -> (forall a, bus_only (k a)) -> bus_only (bind m k).
Proof.
  intros Hm Hk s. unfold bind.
  destruct (Hm s) as (H1 & evs & H2 & H3).
  destruct (m s) as [[a | e] s1]; cbn [snd] in *.
  - destruct (Hk a s1) as (K1 & evs' & K2 & K3).
    rewrite K1, K2, H1, H2. split; trivial.
    exists (evs ++ evs'). rewrite app_assoc, forallb_app, H3, K3. now split.
  - split; trivial. now exists evs.
Qed.

Lemma bus_only_select v : bus_only (pin_value CS v).
Proof. intros s; cbn; split; trivial; eexists; split; reflexivity. Qed.

Lemma bus_only_mode v : bus_only (pin_value DC v).
Proof. intros s; cbn; split; trivial; eexists; split; reflexivity. Qed.

Lemma bus_only_spi_write buf : bus_only (spi_write buf).
Proof.
  intros s; unfold spi_write.
  destruct (spi_faults s (spi_calls s)); cbn; split; trivial;
    eexists; split; reflexivity.
Qed.

Lemma bus_only_bytes l : bus_only (bytes l).
Proof.
  unfold bytes. destruct (forallb _ l); [apply bus_only_ret | apply bus_only_raise].
Qed.

Create HintDb bus.
#[local] Hint Resolve bus_only_ret bus_only_raise bus_only_gets bus_only_select
  bus_only_mode bus_only_spi_write bus_only_bytes : bus.

Ltac bus_tac := repeat (apply bus_only_bind; [ | intros ? ]); auto with bus.

Lemma bus_only_write_cmd cmd : bus_only (write_cmd cmd).
Proof. unfold write_cmd; bus_tac. Qed.

Lemma bus_only_write_data buf : bus_only (write_data buf).
Proof. unfold write_data; bus_tac. Qed.

#[local] Hint Resolve bus_only_write_cmd bus_only_write_data : bus.

Lemma bus_only_call o : bus_only (call o).
Proof.
  destruct o as [| v | [] | |]; cbn [call];
    unfold show, contrast, invert, poweroff, poweron; bus_tac.
Qed.

(** X5: what the operations never do.  Whatever the store and the
    transport, show, contrast, invert, poweroff and poweron only ever drive
    chip-select and data/command and call the transport: they never write
    or configure the reset line (its level is unchanged), never configure a
    pin and never sleep. *)
Theorem operations_touch_the_bus_only (o : op) (s : state) :
  forallb bus_event (emitted s (snd (call o s))) = true /\
  rst (snd (call o s)) = rst s /\
  (forall v, ~ In (PinSet RST v) (emitted s (snd (call o s)))) /\
  (forall p v, ~ In (PinInit p v) (emitted s (snd (call o s)))) /\
  (forall ms, ~ In (SleepMs ms) (emitted s (snd (call o s)))).
Proof.
  destruct (bus_only_call o s) as (Hrst & evs & Htr & Hall).
  rewrite (emitted_app _ _ _ Htr), Hrst.
  pose proof (proj1 (forallb_forall _ _) Hall) as Hev.
  repeat split; trivial.
  - intros v Hin. apply Hev in Hin. discriminate Hin.
  - intros p v Hin. apply Hev in Hin. discriminate Hin.
  - intros ms Hin. apply Hev in Hin. discriminate Hin.
Qed.

(** * Runs of operations *)

Lemma no_fault_taken n s :
  no_fault n s -> taken (spi_faults s) (spi_calls s) n = n.
Proof. intros Hf. apply taken_all. exact Hf. Qed.

Lemma no_fault_split a b s :
  no_fault (a + b) s ->
  no_fault a s /\
  (forall s', spi_faults s' = spi_faults s ->
              spi_calls s' = (spi_calls s + a)%nat -> no_fault b s').
Proof.
  intros Hf. split.
  - intros k Hk. apply Hf. lia.
  - intros s' Hfa Hca k Hk. rewrite Hfa, Hca.
    replace (k + (spi_calls s + a))%nat with ((a + k) + spi_calls s)%nat by lia.
    apply Hf. lia.
Qed.

Lemma op_events_frames (o : op) (s : state) c d r :
  bus_frames c d ((flat_map cmd_frame (op_cmds o s) ++ op_data o s) ++ r)
  = op_frames o s
    ++ bus_frames 1 (match o with OpShow => 1 | _ => 0 end) r.
Proof. destruct o as [| v | [] | |]; reflexivity. Qed.

Lemma op_frames_self (o : op) (s s' : state) :
  self s' = self s -> op_frames o s' = op_frames o s.
Proof.
  intros E. unfold op_frames. destruct o; cbn [op_cmds]; rewrite ?E; reflexivity.
Qed.

Lemma ready_self W H s s' : self s' = self s -> ready W H s -> ready W H s'.
Proof. intros E. unfold ready. now rewrite E. Qed.

Lemma call_returns (W H : Z) (o : op) (s : state) :
  ready W H s -> no_fault (op_writes o) s ->
  call o s = (Ok tt, snd (call o s)) /\
  spi_calls (snd (call o s)) = (spi_calls s + op_writes o)%nat.
Proof.
  intros Hr Hf.
  assert (Hout :
    fst (call o s)
    = (if (taken (spi_faults s) (spi_calls s) (op_writes o) =? op_writes o)%nat
       then Ok tt else Raise OSError) /\
    spi_calls (snd (call o s))
    = (spi_calls s
       + Nat.min (S (taken (spi_faults s) (spi_calls s) (op_writes o)))
                 (op_writes o))%nat).
  { assert (Hshow : o = OpShow \/ o <> OpShow)
      by (destruct o; auto; right; discriminate).
    destruct Hshow as [-> | Hns].
    - destruct (show_outcome W H s Hr) as (H1 & _ & _ & H4 & _). now split.
    - destruct (command_outcome W H o s Hns Hr) as (H1 & _ & _ & H4 & _).
      now split. }
  destruct Hout as (Hfst & Hcalls).
  rewrite (no_fault_taken _ _ Hf) in Hfst, Hcalls.
  rewrite Nat.eqb_refl in Hfst. split.
  - destruct (call o s) as [r s']. cbn [fst snd] in *. now rewrite Hfst.
  - rewrite Hcalls. lia.
Qed.

Lemma run_outcome (W H : Z) (ops : list op) (s : state) :
  ready W H s -> no_fault (run_writes ops) s ->
  exists s' evs,
    run ops s = (Ok tt, s') /\
    trace s' = trace s ++ evs /\
    (forall c d, bus_frames c d evs = flat_map (fun o => op_frames o s) ops) /\
    self s' = self s /\ spi_faults s' = spi_faults s /\
    spi_calls s' = (spi_calls s + run_writes ops)%nat.
Proof.
  revert s; induction ops as [| o r IH]; intros s Hr Hf.
  - exists s, []. cbn. rewrite app_nil_r, Nat.add_0_r. repeat split.
  - change (run_writes (o :: r)) with (op_writes o + run_writes r)%nat in *.
    destruct (no_fault_split _ _ _ Hf) as [Hf1 Hf2].
    destruct (call_returns W H o s Hr Hf1) as [Hcall Hcalls].
    destruct (hal_only_call o s) as (Hself & Hfaults & _).
    pose proof (call_ok_trace o s _ Hcall) as Htr.
    set (s1 := snd (call o s)) in *.
    destruct (IH s1 (ready_self W H s s1 Hself Hr) (Hf2 s1 Hfaults Hcalls))
      as (s' & evs & Hrun & Htr' & Hfr & Hself' & Hfaults' & Hcalls').
    exists s', ((flat_map cmd_frame (op_cmds o s) ++ op_data o s) ++ evs).
    repeat split.
    + cbn [run]. unfold bind. rewrite Hcall. exact Hrun.
    + rewrite Htr', Htr, <- !app_assoc. reflexivity.
    + intros c d. rewrite op_events_frames, Hfr. cbn [flat_map].
      f_equal. apply flat_map_ext. intros o'. apply op_frames_self, Hself.
    + now rewrite Hself'.
    + now rewrite Hfaults'.
    + rewrite Hcalls', Hcalls. lia.
Qed.

(** X6: operations compose.  On a constructed display and a transport that
    takes every write, a run of operations returns, and what the controller
    receives is the frames of the first operation, then those of the
    second, and so on, nothing in between; the driver object is unchanged
    and the transport was called exactly once per frame. *)
Theorem run_frames (W H : Z) (ops : list op) (s : state) :
  ready W H s -> no_fault (run_writes ops) s ->
  exists s',
    run ops s = (Ok tt, s') /\
    bus_frames (cs s) (dc s) (emitted s s')
    = flat_map (fun o => op_frames o s) ops /\
    length (bus_frames (cs s) (dc s) (emitted s s')) = run_writes ops /\
    spi_calls s' = (spi_calls s + run_writes ops)%nat /\
    self s' = self s.
Proof.
  intros Hr Hf.
  destruct (run_outcome W H ops s Hr Hf)
    as (s' & evs & Hrun & Htr & Hfr & Hself & _ & Hcalls).
  exists s'. rewrite (emitted_app _ _ _ Htr), Hfr.
  repeat split; trivial.
  clear. induction ops as [| o r IH]; [ reflexivity | ].
  cbn [flat_map]. rewrite length_app, IH.
  change (run_writes (o :: r)) with (op_writes o + run_writes r)%nat.
  f_equal. unfold op_frames. rewrite length_app, length_map.
  destruct o; reflexivity.
Qed.

Lemma run_frames_witness :
  exists s',
    run [OpContrast 300; OpShow; OpPoweroff] after_failed_show = (Ok tt, s') /\
    bus_frames (cs after_failed_show) (dc after_failed_show)
               (emitted after_failed_show s')
    = [ Frame Command [0x81]; Frame Command [0xFF];
        Frame Command [0x21]; Frame Command [0x00]; Frame Command [0x7F];
        Frame Command [0x22]; Frame Command [0x00]; Frame Command [0x07];
        Frame Data (repeat 0xFF 1024);
        Frame Command [0xAE] ].
Proof.
  destruct (run_frames 128 64 [OpContrast 300; OpShow; OpPoweroff]
              after_failed_show after_failed_show_ready
              (after_failed_show_no_fault _))
    as (s' & Hrun & Hfr & _).
  exists s'. split; [ exact Hrun | exact Hfr ].
Defined.

(** * The charge-pump opcode, operation by operation *)

Lemma opcodes_incl (x : Z) (pending : nat) (l : list Z) :
  In x (Wire.opcodes pending l) -> In x l.
Proof.
  revert pending; induction l as [| b r IH]; intros pending Hin;
    [ contradiction Hin | ].
  destruct pending as [| n]; cbn [Wire.opcodes] in Hin.
  - destruct Hin as [<- | Hin]; [ now left | right; eapply IH, Hin ].
  - right. eapply IH, Hin.
Qed.

Lemma cmd_bytes_firstn_op_frames (k : nat) (o : op) (s : state) :
  cmd_bytes (firstn k (op_frames o s)) = firstn k (op_cmds o s).
Proof.
  unfold op_frames.
  rewrite firstn_app, cmd_bytes_app, firstn_map, cmd_bytes_cmds, length_map.
  assert (Htail : forall n (tail : list frame),
             tail = [] \/ (exists buf, tail = [Frame Data buf]) ->
             cmd_bytes (firstn n tail) = []).
  { intros n tail [-> | [buf ->]]; destruct n as [| [| n]]; reflexivity. }
  rewrite Htail; [ apply app_nil_r | ].
  destruct o; eauto.
Qed.

(** What the controller receives from a construction, on any transport and
    for any geometry: a prefix of the initialization bytes, or nothing. *)
Lemma init_cmd_bytes_any_transport (W H : Z) (s : state) :
  exists l,
    cmd_bytes (bus_frames (cs s) (dc s) (emitted s (snd (__init__ W H s)))) = l /\
    (l = [] \/ (supported W H /\ exists k, l = firstn k (init_bytes H))).
Proof.
  eexists. split; [ reflexivity | ].
  destruct (supported_dec W H) as [Hs | Hn].
  - right. split; [ exact Hs | ].
    exists (taken (spi_faults s) (spi_calls s) 26).
    rewrite (init_supported W H s Hs), init_display_as_cmds.
    cbn [wired self height].
    destruct (write_cmds_outcome (init_bytes H) (wired W H s)
                (init_bytes_are_bytes W H Hs))
      as (_ & Htr & Hfr & _).
    change (length (init_bytes H)) with 26%nat in *.
    cbn [wired spi_faults spi_calls trace] in *.
    erewrite emitted_app.
    2:{ rewrite Htr, <- !app_assoc. reflexivity. }
    rewrite bus_frames_wiring, Hfr, cmd_bytes_cmds. reflexivity.
  - left. rewrite (init_unsupported W H s Hn). cbn [snd].
    rewrite (emitted_app s s []) by (now rewrite app_nil_r). reflexivity.
Qed.

(** What the controller receives from one operation on a constructed
    display, on any transport: a prefix of the operation's command bytes. *)
Lemma call_cmd_bytes_any_transport (W H : Z) (o : op) (s : state) :
  ready W H s ->
  exists k,
    cmd_bytes (bus_frames (cs s) (dc s) (emitted s (snd (call o s))))
    = firstn k (op_cmds o s).
Proof.
  intros Hr. exists (taken (spi_faults s) (spi_calls s) (op_writes o)).
  assert (Hshow : o = OpShow \/ o <> OpShow)
    by (destruct o; auto; right; discriminate).
  destruct Hshow as [-> | Hns].
  - destruct (show_outcome W H s Hr) as (_ & Hfr & _).
    rewrite Hfr. apply cmd_bytes_firstn_op_frames.
  - destruct (command_outcome W H o s Hns Hr) as (_ & Hfr & _).
    rewrite Hfr. apply cmd_bytes_firstn_op_frames.
Qed.

Lemma op_cmds_prefix_opcodes (o : op) (s : state) (k : nat) :
  ~ In Wire.charge_pump (Wire.opcodes 0 (firstn k (op_cmds o s))).
Proof.
  unfold Wire.charge_pump.
  destruct o as [| v | [] | |]; cbn [op_cmds];
    do 7 (destruct k as [| k]; [ cbn; intuition discriminate | ]);
    cbn; intuition discriminate.
Qed.

Lemma op_cmds_charge_pump_byte (W H : Z) (o : op) (s : state) :
  ready W H s -> In Wire.charge_pump (op_cmds o s) ->
  exists v, o = OpContrast v /\ Z.max 0 (Z.min 255 v) = Wire.charge_pump.
Proof.
  intros (Hs & Hw & _ & Hp & _) Hin. unfold Wire.charge_pump in *.
  destruct o as [| v | [] | |]; cbn [op_cmds In] in Hin.
  - rewrite Hw, Hp in Hin. destruct Hs as [-> [-> | ->]];
      cbn in Hin; intuition discriminate.
  - destruct Hin as [Hin | [Hin | []]]; [ discriminate Hin | ].
    exists v. split; [ reflexivity | exact Hin ].
  - intuition discriminate.
  - intuition discriminate.
  - intuition discriminate.
  - intuition discriminate.
Qed.

(** C3: the command stream produced by construction and by every
    subsequent operation never contains the charge-pump opcode 0x8D.
    Construction, for any geometry and on any transport, puts no byte 0x8D
    on the bus at all.  After it, from any state a program can reach
    (whatever calls it made before, returned or raised, and whatever it
    drew), the command bytes that a call of show, contrast, invert,
    poweroff or poweron puts on the bus, on any transport, decode with the
    opcode table without the opcode 0x8D; the byte value itself can occur
    only as the level parameter of contrast, for level 141. *)
Theorem no_charge_pump_opcode (W H : Z) (s0 : state) :
  let built :=
    cmd_bytes (bus_frames (cs s0) (dc s0) (emitted s0 (snd (__init__ W H s0)))) in
  ~ In Wire.charge_pump built /\
  ~ In Wire.charge_pump (Wire.opcodes 0 built) /\
  forall (s : state) (o : op),
    constructed W H s ->
    let sent :=
      cmd_bytes (bus_frames (cs s) (dc s) (emitted s (snd (call o s)))) in
    ~ In Wire.charge_pump (Wire.opcodes 0 sent) /\
    (In Wire.charge_pump sent ->
     exists v, o = OpContrast v /\ Z.max 0 (Z.min 255 v) = Wire.charge_pump).
Proof.
  intros built.
  assert (Hbuilt : ~ In Wire.charge_pump built).
  { subst built.
    destruct (init_cmd_bytes_any_transport W H s0)
      as (l & -> & [-> | ([_ HH] & k & ->)]); [ intros [] | ].
    intros Hin. apply In_firstn in Hin. unfold Wire.charge_pump in Hin.
    destruct HH as [-> | ->]; cbn in Hin; intuition discriminate. }
  split; [ exact Hbuilt | split ].
  - intros Hin. apply Hbuilt. eapply opcodes_incl, Hin.
  - intros s o Hc sent. subst sent.
    pose proof (constructed_ready W H s Hc) as Hr.
    destruct (call_cmd_bytes_any_transport W H o s Hr) as (k & ->).
    split.
    + apply op_cmds_prefix_opcodes.
    + intros Hin. apply In_firstn in Hin.
      apply (op_cmds_charge_pump_byte W H o s Hr Hin).
Qed.

(** A transport whose 28th write raises: it takes a construction and the
    opcode of the next contrast command, and refuses the level. *)
Lemma no_charge_pump_opcode_witness :
  let s0 := power_up (fun n => Nat.eqb n 27) in
  let s1 := sent_cmds (init_bytes 64) (wired 128 64 s0) in
  let s2 := snd (call (OpContrast 141) s1) in
  fst (call (OpContrast 141) s1) = Raise OSError /\
  fst (call (OpContrast 141) s2) = Ok tt /\
  cmd_bytes (bus_frames (cs s2) (dc s2)
                        (emitted s2 (snd (call (OpContrast 141) s2))))
  = [0x81; 0x8D] /\
  ~ In Wire.charge_pump
       (Wire.opcodes 0
          (cmd_bytes (bus_frames (cs s2) (dc s2)
                                 (emitted s2 (snd (call (OpContrast 141) s2)))))) /\
  ~ In Wire.charge_pump
       (cmd_bytes (bus_frames (cs s0) (dc s0)
                              (emitted s0 (snd (__init__ 128 64 s0))))).
Proof.
  intros s0 s1 s2.
  assert (Hc : constructed 128 64 s2).
  { exists s0, s1. split.
    - apply init_run.
      + split; [ reflexivity | right; reflexivity ].
      + intros k Hk. apply Nat.eqb_neq. cbn. lia.
    - eapply steps_cons; [ apply steps_refl | apply (step_call (OpContrast 141)) ]. }
  destruct (no_charge_pump_opcode 128 64 s0) as (Hbuilt & _ & Hops).
  destruct (Hops s2 (OpContrast 141) Hc) as (Hop & _).
  split; [ reflexivity | split; [ reflexivity | split; [ reflexivity | ] ] ].
  split; [ exact Hop | exact Hbuilt ].
Defined.

(** Why the statement is made operation by operation.  In the session of
    the witness the first contrast call was cut short after its opcode, so
    the controller still owes that command a parameter: decoding the
    session's bytes in one go from power-up, it takes the second call's
    opcode 0x81 for that parameter, and the level 0x8D for an opcode. *)
Example cut_short_contrast_desynchronises :
  let s0 := power_up (fun n => Nat.eqb n 27) in
  let s1 := sent_cmds (init_bytes 64) (wired 128 64 s0) in
  let s2 := snd (call (OpContrast 141) s1) in
  let s3 := snd (call (OpContrast 141) s2) in
  cmd_bytes (bus_frames (cs s1) (dc s1) (emitted s1 s3)) = [0x81; 0x81; 0x8D] /\
  Wire.opcodes 0 [0x81; 0x81; 0x8D] = [0x81; 0x8D].
Proof. split; reflexivity. Qed.

(** * The demonstration script *)

Import Demo.

(** X7: [draw_centered_text] issues one [text] call whose left margin and
    right margin differ by at most one pixel (the right one being the
    larger), and the text starts on the display exactly when it is not
    wider than the display. *)
Theorem centered_text_margins (width : Z) (text : String.string) (y color : Z) :
  exists x,
    draw_centered_text width text y color = [Text text x y color] /\
    0 <= (width - (x + 8 * Z.of_nat (String.length text))) - x <= 1 /\
    (0 <= x <-> 8 * Z.of_nat (String.length text) <= width).
Proof.
  eexists. split; [ reflexivity | ].
  set (n := Z.of_nat (String.length text)).
  Z.div_mod_to_equations. lia.
Qed.

(** ** The circle outline *)

Lemma circle_loop_points fuel cx cy color x y err :
  circle_loop fuel cx cy color x y err
  = option_map (flat_map (fun p => octants cx cy (fst p) (snd p) color))
               (circle_points fuel x y err).
Proof.
  revert x y err; induction fuel as [| f IH]; intros x y err;
    cbn [circle_loop circle_points]; destruct (x >=? y); try reflexivity.
  rewrite IH.
  destruct (circle_points f _ _ _) as [l |]; reflexivity.
Qed.

Lemma circle_points_total fuel x y err :
  (Z.to_nat (x - y + 1) <= fuel)%nat ->
  exists l, circle_points fuel x y err = Some l /\ (length l <= fuel)%nat.
Proof.
  revert x y err; induction fuel as [| f IH]; intros x y err Hfuel;
    cbn [circle_points]; destruct (Z.geb_spec x y) as [Hxy | Hxy].
  - lia.
  - exists []. split; [ reflexivity | cbn; lia ].
  - destruct (2 * (err + (1 + 2 * (y + 1)) - x) + 1 >? 0); cbn [fst snd].
    + destruct (IH (x - 1) (y + 1) (err + (1 + 2 * (y + 1)) + (1 - 2 * (x - 1))))
        as (l & -> & Hl); [ lia | ].
      eexists. split; [ reflexivity | cbn; lia ].
    + destruct (IH x (y + 1) (err + (1 + 2 * (y + 1)))) as (l & -> & Hl);
        [ lia | ].
      eexists. split; [ reflexivity | cbn; lia ].
  - exists []. split; [ reflexivity | cbn; lia ].
Qed.

Lemma circle_points_bound fuel x y err r l :
  circle_points fuel x y err = Some l -> 0 <= y -> x <= r ->
  forall p, In p l -> 0 <= snd p <= fst p /\ fst p <= r.
Proof.
  revert x y err l; induction fuel as [| f IH]; intros x y err l;
    cbn [circle_points]; destruct (Z.geb_spec x y) as [Hxy | Hxy];
    intros Hl Hy Hx p Hp; try discriminate Hl;
    try (injection Hl as <-; contradiction Hp).
  destruct (2 * (err + (1 + 2 * (y + 1)) - x) + 1 >? 0); cbn [fst snd] in Hl;
    match type of Hl with
    | option_map _ ?c = _ => destruct c as [l' |] eqn:E; [ | discriminate Hl ]
    end;
    injection Hl as <-; destruct Hp as [<- | Hp]; cbn [fst snd];
    try lia; eapply IH; try eassumption; lia.
Qed.

Lemma circle_points_first r :
  0 <= r -> exists l, circle_points (Z.to_nat (r + 1)) r 0 0 = Some ((r, 0) :: l).
Proof.
  intros Hr.
  destruct (circle_points_total (Z.to_nat (r + 1)) r 0 0) as (l & Hl & _);
    [ lia | ].
  replace (Z.to_nat (r + 1)) with (S (Z.to_nat r)) in * by lia.
  cbn [circle_points] in Hl |- *.
  destruct (Z.geb_spec r 0) as [_ | Hneg]; [ | lia ].
  match type of Hl with
  | option_map _ ?c = _ => destruct c as [l' |]; [ | discriminate Hl ]
  end.
  exists l'. reflexivity.
Qed.

Ltac octant_cases H :=
  cbn [In octants] in H;
  repeat (destruct H as [H | H]); try contradiction H.

Ltac find_pixel :=
  cbn [In octants];
  repeat match goal with
         | |- _ \/ _ => (left; solve [ f_equal; lia ]) || right
         end.

Lemma octants_bound cx cy x y color r c :
  0 <= y <= x -> x <= r -> In c (octants cx cy x y color) ->
  exists px py, c = Pixel px py color /\
                cx - r <= px <= cx + r /\ cy - r <= py <= cy + r.
Proof.
  intros Hy Hx Hin. octant_cases Hin; subst c;
    (eexists; eexists; split; [ reflexivity | lia ]).
Qed.

Lemma octants_symmetric cx cy x y color a b :
  In (Pixel (cx + a) (cy + b) color) (octants cx cy x y color) ->
  In (Pixel (cx + b) (cy + a) color) (octants cx cy x y color) /\
  In (Pixel (cx - a) (cy + b) color) (octants cx cy x y color) /\
  In (Pixel (cx + a) (cy - b) color) (octants cx cy x y color).
Proof.
  intros Hin. octant_cases Hin; injection Hin as Ha Hb;
    (split; [ | split ]); find_pixel.
Qed.

Lemma draw_circle_outline_points (cx cy r color : Z) :
  exists pts,
    circle_points (Z.to_nat (r + 1)) r 0 0 = Some pts /\
    (length pts <= Z.to_nat (r + 1))%nat /\
    draw_circle_outline cx cy r color
    = Some (flat_map (fun p => octants cx cy (fst p) (snd p) color) pts) /\
    (forall p, In p pts -> 0 <= snd p <= fst p /\ fst p <= r).
Proof.
  destruct (circle_points_total (Z.to_nat (r + 1)) r 0 0) as (pts & Hpts & Hlen);
    [ lia | ].
  exists pts. split; [ exact Hpts | split; [ exact Hlen | split ] ].
  - unfold draw_circle_outline. rewrite circle_loop_points, Hpts. reflexivity.
  - apply (circle_points_bound _ _ _ _ r pts Hpts); lia.
Qed.

(** X8: [draw_circle_outline] terminates for every radius, after at most
    [r + 1] passes of its loop, and only sets pixels of the requested
    colour inside the square of half-side [r] around the centre; for a
    negative radius it draws nothing; for a radius of at least zero the four
    points of the circle on the axes through the centre are among them. *)
Theorem circle_outline_bounded (cx cy r color : Z) :
  exists calls,
    draw_circle_outline cx cy r color = Some calls /\
    (length calls <= 8 * Z.to_nat (r + 1))%nat /\
    (forall c, In c calls ->
       exists px py, c = Pixel px py color /\
                     cx - r <= px <= cx + r /\ cy - r <= py <= cy + r) /\
    (r < 0 -> calls = []) /\
    (0 <= r ->
       In (Pixel (cx + r) cy color) calls /\ In (Pixel (cx - r) cy color) calls /\
       In (Pixel cx (cy + r) color) calls /\ In (Pixel cx (cy - r) color) calls).
Proof.
  destruct (draw_circle_outline_points cx cy r color)
    as (pts & Hpts & Hlen & Hrun & Hbound).
  eexists. split; [ exact Hrun | ].
  split; [ | split; [ | split ] ].
  - clear - Hlen. transitivity (8 * length pts)%nat; [ | lia ].
    clear. induction pts as [| p l IH]; [ cbn; lia | ].
    cbn [flat_map]. rewrite length_app. cbn [octants length]. lia.
  - intros c Hin. apply in_flat_map in Hin. destruct Hin as (p & Hp & Hc).
    destruct (Hbound p Hp) as [Hy Hx].
    apply (octants_bound cx cy (fst p) (snd p) color r c Hy Hx Hc).
  - intros Hr. replace (Z.to_nat (r + 1)) with 0%nat in Hpts by lia.
    cbn [circle_points] in Hpts.
    destruct (Z.geb_spec r 0) as [Hge | _]; [ lia | ].
    injection Hpts as <-. reflexivity.
  - intros Hr.
    destruct (circle_points_first r Hr) as (l & Hl).
    rewrite Hl in Hpts. injection Hpts as <-.
    cbn [flat_map fst snd].
    repeat split; apply in_or_app; left; find_pixel.
Qed.

Lemma circle_outline_bounded_witness :
  exists calls,
    draw_circle_outline 103 48 12 1 = Some calls /\
    length calls = 72%nat /\
    In (Pixel 115 48 1) calls /\ In (Pixel 91 48 1) calls /\
    In (Pixel 103 60 1) calls /\ In (Pixel 103 36 1) calls /\
    draw_circle_outline 103 48 (-1) 1 = Some [].
Proof.
  destruct (circle_outline_bounded 103 48 12 1)
    as (calls & Hrun & _ & _ & _ & Hax).
  destruct Hax as (H1 & H2 & H3 & H4); [ lia | ].
  exists calls. split; [ exact Hrun | ].
  split; [ | repeat split; assumption ].
  vm_compute in Hrun. injection Hrun as <-. reflexivity.
Defined.

(** X9: the pixels [draw_circle_outline] sets are symmetric about the
    centre's vertical axis, horizontal axis and diagonal: with the pixel at
    offset (a, b) from the centre it also sets those at (b, a), (-a, b) and
    (a, -b). *)
Theorem circle_outline_symmetric (cx cy r color a b : Z) :
  exists calls,
    draw_circle_outline cx cy r color = Some calls /\
    (In (Pixel (cx + a) (cy + b) color) calls ->
     In (Pixel (cx + b) (cy + a) color) calls /\
     In (Pixel (cx - a) (cy + b) color) calls /\
     In (Pixel (cx + a) (cy - b) color) calls).
Proof.
  destruct (draw_circle_outline_points cx cy r color)
    as (pts & _ & _ & Hrun & _).
  eexists. split; [ exact Hrun | ].
  intros Hin. apply in_flat_map in Hin. destruct Hin as (p & Hp & Hc).
  destruct (octants_symmetric _ _ _ _ _ _ _ Hc) as (H1 & H2 & H3).
  repeat split; apply in_flat_map; exists p; split; assumption.
Qed.

Lemma circle_outline_symmetric_witness :
  exists calls,
    draw_circle_outline 103 48 12 1 = Some calls /\
    In (Pixel (103 + 11) (48 + 3) 1) calls /\
    In (Pixel (103 + 3) (48 + 11) 1) calls /\
    In (Pixel (103 - 11) (48 + 3) 1) calls /\
    In (Pixel (103 + 11) (48 - 3) 1) calls.
Proof.
  destruct (circle_outline_symmetric 103 48 12 1 11 3) as (calls & Hrun & Hsym).
  exists calls. split; [ exact Hrun | ].
  assert (Hin : In (Pixel (103 + 11) (48 + 3) 1) calls).
  { vm_compute in Hrun. injection Hrun as <-. vm_compute. tauto. }
  split; [ exact Hin | exact (Hsym Hin) ].
Defined.

(** ** The checkerboard *)

Lemma in_range (v n : Z) : In v (range n) <-> 0 <= v < n.
Proof.
  unfold range. rewrite in_map_iff. split.
  - intros (k & <- & Hk). apply in_seq in Hk. lia.
  - intros Hv. exists (Z.to_nat v). split; [ lia | ]. apply in_seq. lia.
Qed.

Lemma in_checkerboard (width height : Z) (c : draw_call) :
  In c (demo_checkerboard width height) <->
  c = Fill 0 \/ c = ShowCall \/
  exists row col,
    0 <= row < height / 8 /\ 0 <= col < width / 8 /\
    (row + col) mod 2 = 0 /\ c = FillRect (col * 8) (row * 8) 8 8 1.
Proof.
  unfold demo_checkerboard. cbv zeta.
  rewrite in_app_iff, in_app_iff, in_flat_map. cbn [In]. split.
  - intros [[<- | []] | [(row & Hrow & Hin) | [<- | []]]]; auto.
    apply in_flat_map in Hin. destruct Hin as (col & Hcol & Hin).
    apply in_range in Hrow. apply in_range in Hcol.
    destruct (Z.eqb_spec ((row + col) mod 2) 0) as [Hpar | _];
      [ | contradiction Hin ].
    destruct Hin as [<- | []]. right; right. exists row, col. auto.
  - intros [-> | [-> | (row & col & Hrow & Hcol & Hpar & ->)]]; auto.
    right; left. exists row. split; [ apply in_range, Hrow | ].
    apply in_flat_map. exists col. split; [ apply in_range, Hcol | ].
    rewrite Hpar. cbn. now left.
Qed.

(** X10: the squares of [demo_checkerboard].  On a display of any size,
    every square it fills is 8 x 8, aligned to the 8-pixel grid, on an even
    grid diagonal and entirely on the display; two of its squares are either
    the same or do not overlap; and the square at the origin is filled as
    soon as the display holds one. *)
Theorem checkerboard_squares (width height : Z) :
  (forall x y w h c,
      In (FillRect x y w h c) (demo_checkerboard width height) ->
      w = 8 /\ h = 8 /\ c = 1 /\
      0 <= x /\ x + w <= width /\ 0 <= y /\ y + h <= height /\
      x mod 8 = 0 /\ y mod 8 = 0 /\ (x / 8 + y / 8) mod 2 = 0) /\
  (forall x1 y1 x2 y2 w h c,
      In (FillRect x1 y1 w h c) (demo_checkerboard width height) ->
      In (FillRect x2 y2 w h c) (demo_checkerboard width height) ->
      (x1 = x2 /\ y1 = y2) \/
      x1 + 8 <= x2 \/ x2 + 8 <= x1 \/ y1 + 8 <= y2 \/ y2 + 8 <= y1) /\
  (8 <= width -> 8 <= height ->
   In (FillRect 0 0 8 8 1) (demo_checkerboard width height)).
Proof.
  assert (Hsq : forall x y w h c,
      In (FillRect x y w h c) (demo_checkerboard width height) ->
      w = 8 /\ h = 8 /\ c = 1 /\
      0 <= x /\ x + w <= width /\ 0 <= y /\ y + h <= height /\
      x mod 8 = 0 /\ y mod 8 = 0 /\ (x / 8 + y / 8) mod 2 = 0).
  { intros x y w h c Hin. apply in_checkerboard in Hin.
    destruct Hin as [Hin | [Hin | (row & col & Hrow & Hcol & Hpar & Hin)]];
      try discriminate Hin.
    injection Hin as -> -> -> -> ->.
    rewrite !Z.mod_mul, !Z.div_mul by lia.
    pose proof (Z.mul_div_le width 8 ltac:(lia)).
    pose proof (Z.mul_div_le height 8 ltac:(lia)).
    repeat split; try lia. rewrite Z.add_comm. exact Hpar. }
  split; [ exact Hsq | split ].
  - intros x1 y1 x2 y2 w h c H1 H2.
    destruct (Hsq _ _ _ _ _ H1) as (_ & _ & _ & _ & _ & _ & _ & Hx1 & Hy1 & _).
    destruct (Hsq _ _ _ _ _ H2) as (_ & _ & _ & _ & _ & _ & _ & Hx2 & Hy2 & _).
    clear - Hx1 Hy1 Hx2 Hy2.
    Z.div_mod_to_equations. lia.
  - intros Hw Hh. apply in_checkerboard. right; right. exists 0, 0.
    pose proof (Z.div_le_lower_bound width 8 1 ltac:(lia) ltac:(lia)).
    pose proof (Z.div_le_lower_bound height 8 1 ltac:(lia) ltac:(lia)).
    repeat split; try lia.
Qed.

Lemma checkerboard_squares_witness :
  In (FillRect 120 56 8 8 1) (demo_checkerboard 128 64) /\
  120 + 8 <= 128 /\ 56 + 8 <= 64 /\
  In (FillRect 0 0 8 8 1) (demo_checkerboard 128 64) /\
  ~ In (FillRect 8 0 8 8 1) (demo_checkerboard 128 64).
Proof.
  assert (Hin : In (FillRect 120 56 8 8 1) (demo_checkerboard 128 64)).
  { apply in_checkerboard. right; right. exists 7, 15. repeat split; lia. }
  destruct (checkerboard_squares 128 64) as (Hsq & _ & Horigin).
  destruct (Hsq _ _ _ _ _ Hin) as (_ & _ & _ & _ & Hx & _ & Hy & _).
  split; [ exact Hin | ]. split; [ exact Hx | ]. split; [ exact Hy | ].
  split; [ apply Horigin; lia | ].
  intros Hbad. apply Hsq in Hbad.
  destruct Hbad as (_ & _ & _ & _ & _ & _ & _ & _ & _ & Hpar).
  discriminate Hpar.
Defined.

(** ** The bouncing ball *)

Lemma near_step (lo hi x dx : Z) :
  lo < hi -> near lo hi x dx ->
  near lo hi (x + dx)
       (if (x + dx <=? lo) || (x + dx >=? hi) then - dx else dx).
Proof.
  intros Hlh [Hdx Hcases]. unfold near.
  destruct (Z.leb_spec (x + dx) lo) as [Hlo | Hlo];
    destruct (Z.geb_spec (x + dx) hi) as [Hhi | Hhi]; cbn [orb]; lia.
Qed.

Lemma near_abs (lo hi x dx : Z) :
  lo < hi -> near lo hi x dx -> lo - Z.abs dx < x < hi + Z.abs dx.
Proof. intros Hlh [Hdx Hcases]. lia. Qed.

Lemma near_flip_abs (dx : Z) (b : bool) :
  Z.abs (if b then - dx else dx) = Z.abs dx.
Proof. destruct b; lia. Qed.

Lemma animation_loop_near (frames : nat) (width height radius ax ay : Z) :
  radius + 1 < width - radius - 2 ->
  radius + 1 < height - radius - 2 ->
  forall x y dx dy,
    near (radius + 1) (width - radius - 2) x dx -> Z.abs dx = ax ->
    near (radius + 1) (height - radius - 2) y dy -> Z.abs dy = ay ->
    forall cx cy r c,
      In (FilledCircle cx cy r c)
         (animation_loop frames width height radius x y dx dy) ->
      r = radius /\ c = 1 /\
      radius + 1 - ax < cx < width - radius - 2 + ax /\
      radius + 1 - ay < cy < height - radius - 2 + ay.
Proof.
  intros Hw Hh. induction frames as [| n IH];
    intros x y dx dy Hx Hax Hy Hay cx cy r c Hin; [ contradiction Hin | ].
  cbn [animation_loop draw_border app In] in Hin.
  destruct Hin as [Hin | [Hin | [Hin | [Hin | Hin]]]]; try discriminate Hin.
  - injection Hin as <- <- <- <-.
    pose proof (near_abs _ _ _ _ Hw Hx). pose proof (near_abs _ _ _ _ Hh Hy).
    repeat split; lia.
  - eapply IH; [ apply near_step; [ exact Hw | exact Hx ]
               | rewrite near_flip_abs; exact Hax
               | apply near_step; [ exact Hh | exact Hy ]
               | rewrite near_flip_abs; exact Hay
               | exact Hin ].
Qed.

Lemma demo_animation_frames (width height : Z) :
  demo_animation width height = animation_loop 60 width height 5 64 32 3 2.
Proof. unfold demo_animation. reflexivity. Qed.

(** X11: the ball of [demo_animation].  On a display wider than 71 and
    higher than 39 pixels (as 128 x 64 is), in every frame the ball has
    radius 5 and its centre satisfies [4 <= x <= width - 5] and
    [5 <= y <= height - 6]: the disc never leaves the display vertically
    and overshoots it by at most one column horizontally. *)
Theorem animation_ball_stays (width height : Z) :
  71 < width -> 39 < height ->
  forall cx cy r c,
    In (FilledCircle cx cy r c) (demo_animation width height) ->
    r = 5 /\ c = 1 /\
    4 <= cx <= width - 5 /\ 5 <= cy <= height - 6 /\
    -1 <= cx - r /\ cx + r <= width /\ 0 <= cy - r /\ cy + r <= height - 1.
Proof.
  intros Hw Hh cx cy r c Hin. rewrite demo_animation_frames in Hin.
  assert (Hlx : 5 + 1 < width - 5 - 2) by lia.
  assert (Hly : 5 + 1 < height - 5 - 2) by lia.
  assert (Hnx : near (5 + 1) (width - 5 - 2) 64 3) by (unfold near; lia).
  assert (Hny : near (5 + 1) (height - 5 - 2) 32 2) by (unfold near; lia).
  destruct (animation_loop_near 60 width height 5 3 2 Hlx Hly 64 32 3 2
              Hnx eq_refl Hny eq_refl cx cy r c Hin) as (-> & -> & Hx & Hy).
  repeat split; lia.
Qed.

Lemma animation_ball_stays_witness :
  In (FilledCircle 4 44 5 1) (demo_animation 128 64) /\
  In (FilledCircle 103 58 5 1) (demo_animation 128 64) /\
  4 <= 4 <= 128 - 5 /\ 5 <= 44 <= 64 - 6.
Proof.
  assert (Hin : In (FilledCircle 4 44 5 1) (demo_animation 128 64))
    by (vm_compute; tauto).
  split; [ exact Hin | ].
  split; [ vm_compute; tauto | ].
  destruct (animation_ball_stays 128 64 ltac:(lia) ltac:(lia) _ _ _ _ Hin)
    as (_ & _ & Hx & Hy & _).
  split; [ exact Hx | exact Hy ].
Defined.

Import String.StringSyntax.
Delimit Scope string_scope with string.

Lemma centered_text_margins_witness :
  draw_centered_text 128 "SSD1309 TEST"%string 8 1
  = [Text "SSD1309 TEST"%string 16 8 1] /\
  exists x,
    draw_centered_text 128 "Pico 2 / RP2350 board"%string 52 1
    = [Text "Pico 2 / RP2350 board"%string x 52 1] /\
    ~ 0 <= x.
Proof.
  split; [ reflexivity | ].
  destruct (centered_text_margins 128 "Pico 2 / RP2350 board"%string 52 1)
    as (x & Hcall & _ & Hfit).
  exists x. split; [ exact Hcall | ].
  intros Hx. apply Hfit in Hx. cbn in Hx. lia.
Defined.

Lemma operations_touch_the_bus_only_witness :
  rst (snd (call OpShow after_failed_show)) = 1 /\
  ~ In (SleepMs 10) (emitted after_failed_show
                             (snd (call OpShow after_failed_show))).
Proof.
  destruct (operations_touch_the_bus_only OpShow after_failed_show)
    as (_ & Hrst & _ & _ & Hsleep).
  split; [ exact Hrst | apply Hsleep ].
Defined.
